(** * SmartPark: the shared-state synchronisation layer

    A shallow embedding of the relay ([server.js]) and of the client's
    synchronisation code (the [App] component), followed by the properties
    of the design document that concern them.

    Conventions.
    - A JS [number] is an IEEE double: Rocq's primitive [float].
    - A [Date] is the number of milliseconds since the epoch; the calls
      [new Date()] and [Date.now()] take the current instant as an
      argument [now].
    - An optional property ([spots?: ...]) is an [option]: [None] is the
      absent key. A value of type [string | null] is an [option string]:
      [None] is [null].
    - A [Record<string, V>] is a [gmap string V].
    - A message is the typed value that its JSON text encodes. What
      [JSON.stringify] and [JSON.parse] do to a value that is handed to
      them is in [Wire]; what the client's reviver does to a parsed
      message is in [App.revive]. *)

From Stdlib Require Import ZArith.
From Stdlib Require Import Floats.PrimFloat.
From Stdlib Require Import Floats.FloatClass.
From Stdlib Require Import Ascii.
From stdpp Require Import base option list gmap strings pretty.

Local Open Scope Z_scope.

(** ** types.ts *)

Inductive VehicleType := CAR | MOTORCYCLE.
Inductive ParkingStatus := FREE | OCCUPIED.
Inductive UserRole := ADMIN | GUEST.

Definition Date := Z.

Record ParkingSpot := {
  spot_id : string;
  spot_type : VehicleType;
  spot_status : ParkingStatus;
  spot_lastUpdated : option Date
}.

Record SpotLocation := { loc_x : float; loc_y : float }.

Inductive ZoneType := zone_default | zone_car | zone_moto | zone_disabled.

Record MapZone := {
  zone_id : string;
  zone_label : string;
  zone_x : float;
  zone_y : float;
  zone_width : float;
  zone_height : float;
  zone_color : string;
  zone_type : ZoneType
}.

(** [Partial<MapZone>]: every property optional. *)
Record PartialMapZone := {
  upd_id : option string;
  upd_label : option string;
  upd_x : option float;
  upd_y : option float;
  upd_width : option float;
  upd_height : option float;
  upd_color : option string;
  upd_type : option ZoneType
}.

(** [AppStatePayload]: four optional keys; [mapImage], when present, is a
    string or [null]. *)
Record AppStatePayload := {
  p_spots : option (list ParkingSpot);
  p_spotLocations : option (gmap string SpotLocation);
  p_zones : option (list MapZone);
  p_mapImage : option (option string)
}.

Inductive WSType := INIT | UPDATE | SYNC_INITIAL.

Record WSMessage := { msg_type : WSType; msg_payload : AppStatePayload }.

(** The three messages of the protocol. *)
Definition init_msg (p : AppStatePayload) : WSMessage :=
  {| msg_type := INIT; msg_payload := p |}.
Definition update_msg (p : AppStatePayload) : WSMessage :=
  {| msg_type := UPDATE; msg_payload := p |}.
Definition sync_initial_msg (p : AppStatePayload) : WSMessage :=
  {| msg_type := SYNC_INITIAL; msg_payload := p |}.

(** The [readyState] of a WebSocket, on either side. *)
Inductive ReadyState := CONNECTING | OPEN | CLOSING | CLOSED.

#[global] Instance ReadyState_eq_dec : EqDecision ReadyState.
Proof. solve_decision. Defined.
#[global] Instance VehicleType_eq_dec : EqDecision VehicleType.
Proof. solve_decision. Defined.
#[global] Instance ParkingStatus_eq_dec : EqDecision ParkingStatus.
Proof. solve_decision. Defined.
#[global] Instance UserRole_eq_dec : EqDecision UserRole.
Proof. solve_decision. Defined.
#[global] Instance WSType_eq_dec : EqDecision WSType.
Proof. solve_decision. Defined.

(** The payload with no key, and the four payloads with one key. *)
Definition no_change : AppStatePayload :=
  {| p_spots := None; p_spotLocations := None; p_zones := None; p_mapImage := None |}.

Definition only_spots (ss : list ParkingSpot) : AppStatePayload :=
  {| p_spots := Some ss; p_spotLocations := None; p_zones := None; p_mapImage := None |}.

Definition only_spotLocations (ls : gmap string SpotLocation) : AppStatePayload :=
  {| p_spots := None; p_spotLocations := Some ls; p_zones := None; p_mapImage := None |}.

Definition only_zones (zs : list MapZone) : AppStatePayload :=
  {| p_spots := None; p_spotLocations := None; p_zones := Some zs; p_mapImage := None |}.

Definition only_mapImage (i : option string) : AppStatePayload :=
  {| p_spots := None; p_spotLocations := None; p_zones := None; p_mapImage := Some i |}.

(** ** JavaScript conditions

    [if (v)] tests the truthiness of [v]: arrays and objects are truthy
    even when empty, a string is truthy unless it is empty, [null] and
    [undefined] (an absent property) are falsy. *)

Class Truthy (A : Type) := truthy : A → bool.

#[global] Instance array_truthy {A} : Truthy (list A) := λ _, true.
#[global] Instance object_truthy {V} : Truthy (gmap string V) := λ _, true.
#[global] Instance string_truthy : Truthy string :=
  λ s, match s with EmptyString => false | String _ _ => true end.
#[global] Instance nullable_truthy {A} `{Truthy A} : Truthy (option A) :=
  λ o, match o with None => false | Some v => truthy v end.

(** [if (payload.f) target = payload.f]: the new value of [target]. *)
Definition assign_if {A} `{Truthy A} (field : option A) (target : A) : A :=
  match field with
  | Some v => if truthy v then v else target
  | None => target
  end.

(** [{ ...target, ...payload }] at one key: a present key overwrites,
    whatever its value. *)
Definition spread {A} (field : option A) (target : A) : A :=
  match field with
  | Some v => v
  | None => target
  end.

(** ** The wire: [JSON.stringify], then [JSON.parse]

    What the receiver parses when the sender serialises a typed value.
    [JSON.stringify] writes [NaN] and the infinities as [null], which is
    no number ([None]: the value received is not of the type any more),
    and [-0] as [0]; every other number is read back as it was. Strings,
    enumerations and instants are read back as they were. *)

Module Wire.

Definition number (x : float) : option float :=
  match classify x with
  | NaN | PInf | NInf => None
  | NZero => Some 0%float
  | _ => Some x
  end.

Definition location (l : SpotLocation) : option SpotLocation :=
  x ← number (loc_x l); y ← number (loc_y l);
  Some {| loc_x := x; loc_y := y |}.

Definition zone (z : MapZone) : option MapZone :=
  x ← number (zone_x z); y ← number (zone_y z);
  width ← number (zone_width z); height ← number (zone_height z);
  Some {| zone_id := zone_id z; zone_label := zone_label z;
          zone_x := x; zone_y := y; zone_width := width; zone_height := height;
          zone_color := zone_color z; zone_type := zone_type z |}.

Definition locations (m : gmap string SpotLocation) : option (gmap string SpotLocation) :=
  if bool_decide (map_Forall (λ _ l, is_Some (location l)) m)
  then Some (omap location m) else None.

(** An absent key stays absent. *)
Definition optional {A} (f : A → option A) (field : option A) : option (option A) :=
  match field with
  | Some v => Some <$> f v
  | None => Some None
  end.

Definition payload (p : AppStatePayload) : option AppStatePayload :=
  ls ← optional locations (p_spotLocations p);
  zs ← optional (mapM zone) (p_zones p);
  Some {| p_spots := p_spots p; p_spotLocations := ls; p_zones := zs;
          p_mapImage := p_mapImage p |}.

Definition message (m : WSMessage) : option WSMessage :=
  p ← payload (msg_payload m);
  Some {| msg_type := msg_type m; msg_payload := p |}.

End Wire.

(** ** server.js: the relay *)

Module Relay.

Record AppState := {
  spots : list ParkingSpot;
  spotLocations : gmap string SpotLocation;
  zones : list MapZone;
  mapImage : option string;
  lastUpdated : Z
}.

(** [let appState = { spots: [], spotLocations: {}, zones: [],
    mapImage: null, lastUpdated: Date.now() }] *)
Definition initial (now : Z) : AppState :=
  {| spots := []; spotLocations := ∅; zones := []; mapImage := None;
     lastUpdated := now |}.

(** A socket of [wss.clients]: its identity (what [!==] compares) and
    its [readyState]. *)
Record WebSocket := { sock : nat; readyState : ReadyState }.

(** The process: the document and [wss.clients], in insertion order. *)
Record Server := { appState : AppState; clients : list WebSocket }.

(** What the client's [AppStatePayload] reads in the serialised
    document: its four keys, all present. *)
Definition payload_of (s : AppState) : AppStatePayload :=
  {| p_spots := Some (spots s);
     p_spotLocations := Some (spotLocations s);
     p_zones := Some (zones s);
     p_mapImage := Some (mapImage s) |}.

(** [wss.on('connection')]: the new socket joins [wss.clients] and is
    sent the document as INIT. *)
Definition connection (srv : Server) (ws : nat)
  : Server * list (nat * WSMessage) :=
  ({| appState := appState srv;
      clients := clients srv ++ [{| sock := ws; readyState := OPEN |}] |},
   [(ws, init_msg (payload_of (appState srv)))]).

(** [ws.on('close')]: the handler only logs; the socket has left
    [wss.clients]. *)
Definition close (srv : Server) (ws : nat) : Server :=
  {| appState := appState srv;
     clients := filter (λ client, sock client ≠ ws) (clients srv) |}.

(** The four guarded assignments and the stamp of the UPDATE branch. *)
Definition merge_update (s : AppState) (p : AppStatePayload) (now : Z) : AppState :=
  {| spots := assign_if (p_spots p) (spots s);
     spotLocations := assign_if (p_spotLocations p) (spotLocations s);
     zones := assign_if (p_zones p) (zones s);
     mapImage := assign_if (p_mapImage p) (mapImage s);
     lastUpdated := now |}.

(** [wss.clients.forEach]: every client other than [ws] whose socket is
    open is sent the payload as UPDATE. *)
Definition broadcast (cs : list WebSocket) (ws : nat) (p : AppStatePayload)
  : list (nat * WSMessage) :=
  omap (λ client,
          if bool_decide (sock client ≠ ws ∧ readyState client = OPEN)
          then Some (sock client, update_msg p)
          else None) cs.

(** [appState = { ...appState, ...data.payload }] *)
Definition adopt (s : AppState) (p : AppStatePayload) : AppState :=
  {| spots := spread (p_spots p) (spots s);
     spotLocations := spread (p_spotLocations p) (spotLocations s);
     zones := spread (p_zones p) (zones s);
     mapImage := spread (p_mapImage p) (mapImage s);
     lastUpdated := lastUpdated s |}.

(** [ws.on('message')] for the socket [ws]: the new process state and the
    messages sent, each with the socket it is sent on. The handler is
    two [if]s in sequence, the second one reading the document the first
    one left. *)
Definition message (srv : Server) (ws : nat) (data : WSMessage) (now : Z)
  : Server * list (nat * WSMessage) :=
  let '(s1, out) :=
    if bool_decide (msg_type data = UPDATE)
    then (merge_update (appState srv) (msg_payload data) now,
          broadcast (clients srv) ws (msg_payload data))
    else (appState srv, []) in
  let s2 :=
    if bool_decide (msg_type data = SYNC_INITIAL) && bool_decide (length (spots s1) = 0%nat)
    then adopt s1 (msg_payload data)
    else s1 in
  ({| appState := s2; clients := clients srv |}, out).

(** A sequence of messages, each with its sender and arrival time,
    handled one after the other. *)
Fixpoint run (srv : Server) (evs : list (nat * WSMessage * Z))
  : Server * list (nat * WSMessage) :=
  match evs with
  | [] => (srv, [])
  | (ws, data, now) :: evs' =>
      let '(srv1, out1) := message srv ws data now in
      let '(srv2, out2) := run srv1 evs' in
      (srv2, out1 ++ out2)
  end.

End Relay.

(** ** types.ts, continued *)

Record ParkingStats := {
  totalCars : nat;
  occupiedCars : nat;
  totalMotos : nat;
  occupiedMotos : nat;
  occupancyRate : float
}.

(** ** services/geminiService.ts *)

Module GeminiService.

(** What [generateContent] and [JSON.parse] leave to the code that
    follows them: the call was rejected, the response had no text, the
    text was not JSON (or was the JSON [null], on which the first
    [statusMap[spot.id]] throws), or it parsed. A parsed value is read
    only through [statusMap[id] === 'OCCUPIED']: it is kept as the map
    from its keys to its string values, a key with another kind of value
    counting as absent. *)
Inductive Reply :=
| rejected
| text_missing
| not_json
| parsed (statusMap : gmap string string).

(** The callback of [currentSpots.map], for the spot at index [i];
    [clock i] is the instant its [new Date()] reads. *)
Definition restatus (statusMap : gmap string string) (clock : nat → Date)
    (i : nat) (spot : ParkingSpot) : ParkingSpot :=
  {| spot_id := spot_id spot;
     spot_type := spot_type spot;
     spot_status :=
       if bool_decide (statusMap !! spot_id spot = Some "OCCUPIED")
       then OCCUPIED else FREE;
     spot_lastUpdated := Some (clock i) |}.

(** [simulateTrafficScenario]: the spots its promise resolves to, or
    [None] when it rejects ([API Key missing]). *)
Definition simulateTrafficScenario (apiKey : string) (currentSpots : list ParkingSpot)
    (reply : Reply) (clock : nat → Date) : option (list ParkingSpot) :=
  if truthy apiKey then
    match reply with
    | parsed statusMap => Some (imap (restatus statusMap clock) currentSpots)
    | rejected | text_missing | not_json => Some currentSpots
    end
  else None.

End GeminiService.

(** ** App.tsx: the client *)

Module App.

(** [STORAGE_KEYS] *)
Module STORAGE_KEYS.
Definition SPOTS : string := "parking_spots".
Definition LOCATIONS : string := "parking_spot_locations".
Definition ZONES : string := "parking_map_zones".
Definition IMAGE : string := "parking_map_image_data".
End STORAGE_KEYS.

(** A value of [localStorage]: the JSON text of a typed value, kept as
    the value it encodes, or a plain string. *)
Inductive Stored :=
| json_spots (v : list ParkingSpot)
| json_locations (v : gmap string SpotLocation)
| json_zones (v : list MapZone)
| text (s : string).

(** The component's state variables, its socket reference and the
    browser's [localStorage]. [socketRef] holds the [readyState] of the
    socket it points to, or [None] for [null]. *)
Record State := {
  userRole : option UserRole;
  isConnected : bool;
  socketRef : option ReadyState;
  spots : list ParkingSpot;
  spotLocations : gmap string SpotLocation;
  zones : list MapZone;
  mapImage : option string;
  localStorage : gmap string Stored
}.

(** The variables [spots], [spotLocations], [zones] and [mapImage] as
    the WebSocket effect closes over them. Its dependency list is [[]]:
    it runs once, after the first render, and [connect], [ws.onmessage]
    and every reconnection keep the bindings of that render. *)
Record Captured := {
  c_spots : list ParkingSpot;
  c_spotLocations : gmap string SpotLocation;
  c_zones : list MapZone;
  c_mapImage : option string
}.

Definition first_render (st : State) : Captured :=
  {| c_spots := spots st; c_spotLocations := spotLocations st;
     c_zones := zones st; c_mapImage := mapImage st |}.

Definition isGuest (st : State) : bool := bool_decide (userRole st = Some GUEST).

Definition setUserRole (r : option UserRole) (st : State) : State :=
  {| userRole := r; isConnected := isConnected st; socketRef := socketRef st;
     spots := spots st; spotLocations := spotLocations st; zones := zones st;
     mapImage := mapImage st; localStorage := localStorage st |}.

Definition setSpotLocations (v : gmap string SpotLocation) (st : State) : State :=
  {| userRole := userRole st; isConnected := isConnected st; socketRef := socketRef st;
     spots := spots st; spotLocations := v; zones := zones st;
     mapImage := mapImage st; localStorage := localStorage st |}.

Definition setZones (v : list MapZone) (st : State) : State :=
  {| userRole := userRole st; isConnected := isConnected st; socketRef := socketRef st;
     spots := spots st; spotLocations := spotLocations st; zones := v;
     mapImage := mapImage st; localStorage := localStorage st |}.

Definition setMapImage (v : option string) (st : State) : State :=
  {| userRole := userRole st; isConnected := isConnected st; socketRef := socketRef st;
     spots := spots st; spotLocations := spotLocations st; zones := zones st;
     mapImage := v; localStorage := localStorage st |}.

Definition with_storage (ls : gmap string Stored) (st : State) : State :=
  {| userRole := userRole st; isConnected := isConnected st; socketRef := socketRef st;
     spots := spots st; spotLocations := spotLocations st; zones := zones st;
     mapImage := mapImage st; localStorage := ls |}.

(** [ws.onopen] and [ws.onclose] *)
Definition onopen (st : State) : State :=
  {| userRole := userRole st; isConnected := true; socketRef := Some OPEN;
     spots := spots st; spotLocations := spotLocations st; zones := zones st;
     mapImage := mapImage st; localStorage := localStorage st |}.

Definition onclose (st : State) : State :=
  {| userRole := userRole st; isConnected := false; socketRef := None;
     spots := spots st; spotLocations := spotLocations st; zones := zones st;
     mapImage := mapImage st; localStorage := localStorage st |}.

(** [broadcastUpdate]: the messages it sends, as the values handed to
    [JSON.stringify]; what the relay parses is [Wire.message] of them. *)
Definition broadcastUpdate (payload : AppStatePayload) (st : State) : list WSMessage :=
  match socketRef st with
  | Some OPEN => [update_msg payload]
  | _ => []
  end.

(** [if (payload.f) setF(payload.f)] *)
Definition set_if {A} `{Truthy A} (field : option A) (set : A → State → State)
    (st : State) : State :=
  match field with
  | Some v => if truthy v then set v st else st
  | None => st
  end.

Section Browser.

(** Whether a content of [localStorage] is within the browser's quota:
    [setItem] throws when the store it would leave is not. *)
Variable fits : gmap string Stored → bool.

Definition setItem (key : string) (value : Stored) (ls : gmap string Stored)
  : option (gmap string Stored) :=
  let ls' := <[key := value]> ls in
  if fits ls' then Some ls' else None.

(** Whether the browser accepts the write of the effect on [[spots]]
    once the spots [v] are set in the state [st]. *)
Definition spots_write_accepted (v : list ParkingSpot) (st : State) : bool :=
  fits (<[STORAGE_KEYS.SPOTS := json_spots v]> (localStorage st)).

(** The effect on [[spots]]: [localStorage.setItem(SPOTS,
    JSON.stringify(spots))], when the browser accepts the write. Nothing
    catches the exception of a refused write: React unmounts the
    component, and the state given for that case is the state of no
    component. [ws_onmessage] below stops there, and what is proved of a
    state after [setSpots] assumes [spots_write_accepted]. *)
Definition persist_spots (st : State) : State :=
  match setItem STORAGE_KEYS.SPOTS (json_spots (spots st)) (localStorage st) with
  | Some ls => with_storage ls st
  | None => st
  end.

(** [setSpots] with a new array, together with the effect on [[spots]]
    that the render it causes runs. The effect is the only code that
    depends on the new array, and it touches [localStorage] alone. (With
    the array that the state already holds React renders nothing and
    runs no effect: see [handleSimulation].) *)
Definition setSpots (v : list ParkingSpot) (st : State) : State :=
  persist_spots
    {| userRole := userRole st; isConnected := isConnected st;
       socketRef := socketRef st;
       spots := v; spotLocations := spotLocations st; zones := zones st;
       mapImage := mapImage st; localStorage := localStorage st |}.

(** The mount: the effects of the first render. The WebSocket effect
    captures that render's variables; the effect on [[spots]] runs. *)
Definition mount (st : State) : State * Captured :=
  (persist_spots st, first_render st).

(** [ws.onmessage], in the closure [env] of the WebSocket effect, on the
    message that [JSON.parse] and its reviver returned ([revive] below),
    and for a component that stays mounted: the new state and the
    messages sent on [ws]. The SYNC_INITIAL payload is built from the
    variables of the closure. *)
Definition onmessage (env : Captured) (message : WSMessage) (st : State)
  : State * list WSMessage :=
  let payload := msg_payload message in
  let seed :=
    sync_initial_msg
      {| p_spots := Some (c_spots env);
         p_spotLocations := Some (c_spotLocations env);
         p_zones := Some (c_zones env);
         p_mapImage := Some (c_mapImage env) |} in
  match msg_type message with
  | INIT =>
      match p_spots payload with
      | Some ss =>
          if truthy ss && bool_decide (0 < length ss)%nat then
            (set_if (p_mapImage payload) setMapImage
               (set_if (p_zones payload) setZones
                  (set_if (p_spotLocations payload) setSpotLocations
                     (setSpots ss st))), [])
          else (st, [seed])
      | None => (st, [seed])
      end
  | UPDATE =>
      (set_if (p_mapImage payload) setMapImage
         (set_if (p_zones payload) setZones
            (set_if (p_spotLocations payload) setSpotLocations
               (set_if (p_spots payload) setSpots st))), [])
  | SYNC_INITIAL => (st, [])
  end.

(** A sequence of messages received on the socket. *)
Fixpoint receive (env : Captured) (ms : list WSMessage) (st : State)
  : State * list WSMessage :=
  match ms with
  | [] => (st, [])
  | m :: ms' =>
      let '(st1, out1) := onmessage env m st in
      let '(st2, out2) := receive env ms' st1 in
      (st2, out1 ++ out2)
  end.

(** [JSON.parse(event.data, reviver)] on the typed value [data] of the
    text received. The reviver replaces every value under a key
    [lastUpdated], at any depth, by [new Date(value)]. In a spot that
    value is the text of an instant and becomes the [Date] of that
    instant, which is how the model holds it. The only other place where
    a typed payload can have that key is [spotLocations], whose keys are
    ids: the location of an id "lastUpdated" is replaced by a [Date], and
    the result is no [AppStatePayload] ([None]). *)
Definition revive (data : WSMessage) : option WSMessage :=
  match p_spotLocations (msg_payload data) with
  | Some ls => if bool_decide (ls !! "lastUpdated" = None) then Some data else None
  | None => Some data
  end.

(** The array that [ws.onmessage] gives to [setSpots], if it calls it. *)
Definition spots_set (message : WSMessage) : option (list ParkingSpot) :=
  match msg_type message, p_spots (msg_payload message) with
  | INIT, Some ss => if truthy ss && bool_decide (0 < length ss)%nat then Some ss else None
  | UPDATE, Some ss => if truthy ss then Some ss else None
  | _, _ => None
  end.

(** A message received on the socket, from the text to the next render:
    [None] when the revived message is no [WSMessage] or when the write
    of the effect on [[spots]] is refused and the component is
    unmounted (its clean-up closes the socket). *)
Definition ws_onmessage (env : Captured) (data : WSMessage) (st : State)
  : option (State * list WSMessage) :=
  message ← revive data;
  match spots_set message with
  | Some ss =>
      if spots_write_accepted ss st then Some (onmessage env message st) else None
  | None => Some (onmessage env message st)
  end.

(** A sequence of messages received on the socket, as long as the
    component is mounted. *)
Fixpoint ws_receive (env : Captured) (datas : list WSMessage) (st : State)
  : option (State * list WSMessage) :=
  match datas with
  | [] => Some (st, [])
  | data :: datas' =>
      r1 ← ws_onmessage env data st;
      r2 ← ws_receive env datas' r1.1;
      Some (r2.1, r1.2 ++ r2.2)
  end.

(** *** The handlers of the component

    Each is the handler of the latest render, so the state variables
    it reads are the current ones. *)

(** The callback of [spots.map] in [handleToggleSpot]. *)
Definition toggle (id : string) (now : Date) (spot : ParkingSpot) : ParkingSpot :=
  if bool_decide (spot_id spot = id) then
    {| spot_id := spot_id spot;
       spot_type := spot_type spot;
       spot_status :=
         if bool_decide (spot_status spot = FREE) then OCCUPIED else FREE;
       spot_lastUpdated := Some now |}
  else spot.

Definition handleToggleSpot (id : string) (now : Date) (st : State)
  : State * list WSMessage :=
  if isGuest st then (st, []) else
  let newSpots := toggle id now <$> spots st in
  (setSpots newSpots st, broadcastUpdate (only_spots newSpots) st).

(** [handleUpdateLocation]. The locations are the own entries of the
    object. For the id "__proto__" the assignment of a location sets
    the prototype of the new object and adds no entry, which the model
    does not follow: what is proved of a placed spot excludes that id. *)
Definition handleUpdateLocation (id : string) (location : option SpotLocation)
    (st : State) : State * list WSMessage :=
  if isGuest st then (st, []) else
  let newLocations :=
    match location with
    | None => delete id (spotLocations st)
    | Some l => <[id := l]> (spotLocations st)
    end in
  (setSpotLocations newLocations st,
   broadcastUpdate (only_spotLocations newLocations) st).

Definition handleAddZone (zone : MapZone) (st : State) : State * list WSMessage :=
  if isGuest st then (st, []) else
  let newZones := zones st ++ [zone] in
  (setZones newZones st, broadcastUpdate (only_zones newZones) st).

(** [{ ...z, ...updates }] *)
Definition patch (z : MapZone) (updates : PartialMapZone) : MapZone :=
  {| zone_id := spread (upd_id updates) (zone_id z);
     zone_label := spread (upd_label updates) (zone_label z);
     zone_x := spread (upd_x updates) (zone_x z);
     zone_y := spread (upd_y updates) (zone_y z);
     zone_width := spread (upd_width updates) (zone_width z);
     zone_height := spread (upd_height updates) (zone_height z);
     zone_color := spread (upd_color updates) (zone_color z);
     zone_type := spread (upd_type updates) (zone_type z) |}.

Definition handleUpdateZone (id : string) (updates : PartialMapZone) (st : State)
  : State * list WSMessage :=
  if isGuest st then (st, []) else
  let newZones :=
    (λ z, if bool_decide (zone_id z = id) then patch z updates else z) <$> zones st in
  (setZones newZones st, broadcastUpdate (only_zones newZones) st).

Definition handleDeleteZone (id : string) (st : State) : State * list WSMessage :=
  if isGuest st then (st, []) else
  let newZones := filter (λ z, zone_id z ≠ id) (zones st) in
  (setZones newZones st, broadcastUpdate (only_zones newZones) st).

(** A [File] as [FileReader.readAsDataURL] reads it: [reader.result]
    when [onloadend] fires, a data URL, or [null] when the read
    failed. *)
Record File := { reader_result : option string }.

(** [reader.onloadend]. It runs when the read ends, on the state of
    that moment; it reads no state variable. [setItem] stores the
    string conversion of its argument, "null" for [null]. *)
Definition onloadend (base64String : option string) (st : State)
  : State * list WSMessage :=
  match setItem STORAGE_KEYS.IMAGE (text (default "null" base64String))
          (localStorage st) with
  | Some ls =>
      (setMapImage base64String (with_storage ls st),
       broadcastUpdate (only_mapImage base64String) st)
  | None => (st, [])
  end.

Definition handleImageUpload (file : File) (st : State) : State * list WSMessage :=
  if isGuest st then (st, []) else onloadend (reader_result file) st.

(** [handleQuickSaveLayout], with the boolean it returns. A write that
    succeeded before the exception stays written. *)
Definition handleQuickSaveLayout (st : State) : bool * State * list WSMessage :=
  if isGuest st then (false, st, []) else
  match setItem STORAGE_KEYS.LOCATIONS (json_locations (spotLocations st))
          (localStorage st) with
  | None => (false, st, [])
  | Some ls1 =>
      match setItem STORAGE_KEYS.ZONES (json_zones (zones st)) ls1 with
      | None => (false, with_storage ls1 st, [])
      | Some ls2 =>
          (true, with_storage ls2 st,
           broadcastUpdate
             {| p_spots := None;
                p_spotLocations := Some (spotLocations st);
                p_zones := Some (zones st);
                p_mapImage := None |} st)
      end
  end.

(** Whether [simulateTrafficScenario] resolves to the array that the
    state holds. With a parsed reply it resolves to a new array; without
    one, to the array it was given, and [still_current] says whether the
    state still holds that very array. *)
Definition same_array (reply : GeminiService.Reply) (still_current : bool) : bool :=
  match reply with
  | GeminiService.parsed _ => false
  | _ => still_current
  end.

(** [handleSimulation]. It is [async]: [spots_at_click] is the variable
    [spots] of the render in which the button was clicked, which the call
    of [simulateTrafficScenario] reads; what follows the [await] runs on
    the state [st] of the moment the promise resolves. When the promise
    rejects nothing follows ([None]). [setSpots] with the array that the
    state holds causes no render and no effect. The handler tests no
    role. *)
Definition handleSimulation (apiKey : string) (reply : GeminiService.Reply)
    (clock : nat → Date) (spots_at_click : list ParkingSpot) (still_current : bool)
    (st : State) : option (State * list WSMessage) :=
  match GeminiService.simulateTrafficScenario apiKey spots_at_click reply clock with
  | Some newSpots =>
      Some (if same_array reply still_current then st else setSpots newSpots st,
            broadcastUpdate (only_spots newSpots) st)
  | None => None
  end.

(** [handleLoadLayoutSnapshot], with whether it reached
    [setViewMode('map')]. The two setters come first and no [try]
    surrounds the writes: when a write throws, the state updates already
    queued are applied and the rest of the handler is skipped. The
    handler tests no role. *)
Definition handleLoadLayoutSnapshot (locations : gmap string SpotLocation)
    (loadedZones : list MapZone) (st : State) : State * list WSMessage * bool :=
  let st1 := setZones loadedZones (setSpotLocations locations st) in
  match setItem STORAGE_KEYS.LOCATIONS (json_locations locations) (localStorage st) with
  | None => (st1, [], false)
  | Some ls1 =>
      match setItem STORAGE_KEYS.ZONES (json_zones loadedZones) ls1 with
      | None => (with_storage ls1 st1, [], false)
      | Some ls2 =>
          (with_storage ls2 st1,
           broadcastUpdate
             {| p_spots := None;
                p_spotLocations := Some locations;
                p_zones := Some loadedZones;
                p_mapImage := None |} st,
           true)
      end
  end.

(** A [StorageEvent]: the key written in another tab and its new value
    ([None] for [null]). *)
Record StorageEvent := { e_key : option string; e_newValue : option Stored }.

(** A stored string is truthy unless it is empty; a JSON text never is. *)
#[global] Instance stored_truthy : Truthy Stored :=
  λ v, match v with text s => truthy s | _ => true end.

(** [JSON.parse(e.newValue)] read at the type the handler gives it.
    [None]: the text is not the JSON of a value of that type (the call
    throws, or returns a value of another shape), which the model does
    not follow. *)
Definition as_spots (v : Stored) : option (list ParkingSpot) :=
  match v with json_spots l => Some l | _ => None end.
Definition as_locations (v : Stored) : option (gmap string SpotLocation) :=
  match v with json_locations m => Some m | _ => None end.
Definition as_zones (v : Stored) : option (list MapZone) :=
  match v with json_zones l => Some l | _ => None end.
Definition as_text (v : Stored) : option string :=
  match v with text s => Some s | _ => None end.

(** [if (e.key === KEY && e.newValue) set(parse(e.newValue))] *)
Definition on_key {A} (e : StorageEvent) (key : string) (parse : Stored → option A)
    (set : A → State → State) (st : State) : option State :=
  if bool_decide (e_key e = Some key) && truthy (e_newValue e) then
    v ← e_newValue e ≫= parse; Some (set v st)
  else Some st.

(** [handleStorageChange], the listener of the [storage] event; it is
    registered again whenever [isConnected] changes, so it reads the
    current value. *)
Definition handleStorageChange (e : StorageEvent) (st : State) : option State :=
  if isConnected st then Some st else
  st1 ← on_key e STORAGE_KEYS.SPOTS as_spots setSpots st;
  st2 ← on_key e STORAGE_KEYS.LOCATIONS as_locations setSpotLocations st1;
  st3 ← on_key e STORAGE_KEYS.ZONES as_zones setZones st2;
  on_key e STORAGE_KEYS.IMAGE as_text (λ s, setMapImage (Some s)) st3.

End Browser.

(** *** The first render *)

Definition INITIAL_CARS : nat := 62.
Definition INITIAL_MOTOS : nat := 31.

(** [s.padStart(targetLength, pad)] for a pad of one character. *)
Definition padStart (targetLength : nat) (pad : Ascii.ascii) (s : string) : string :=
  String.string_of_list_ascii (replicate (targetLength - String.length s) pad) +:+ s.

(** [generateSpots]. [clock k] is the instant the [k]-th [new Date()]
    of the two loops reads. *)
Definition generateSpots (clock : nat → Date) : list ParkingSpot :=
  ((λ i, {| spot_id := "C-" +:+ padStart 2 "0"%char (pretty i);
            spot_type := CAR;
            spot_status := FREE;
            spot_lastUpdated := Some (clock (i - 1)%nat) |}) <$> seq 1 INITIAL_CARS)
  ++
  ((λ i, {| spot_id := "M-" +:+ padStart 2 "0"%char (pretty i);
            spot_type := MOTORCYCLE;
            spot_status := FREE;
            spot_lastUpdated := Some (clock (INITIAL_CARS + i - 1)%nat) |})
     <$> seq 1 INITIAL_MOTOS).

(** [loadFromStorage]: a missing or empty item gives the fallback. The
    result is [None] where [parse] is. *)
Definition loadFromStorage {T} (parse : Stored → option T) (key : string) (fallback : T)
    (ls : gmap string Stored) : option T :=
  match ls !! key with
  | Some item => if truthy item then parse item else Some fallback
  | None => Some fallback
  end.

(** The state of the first render, from the initialisers of [useState]. *)
Definition initialState (clock : nat → Date) (ls : gmap string Stored) : option State :=
  spots0 ← loadFromStorage as_spots STORAGE_KEYS.SPOTS (generateSpots clock) ls;
  mapImage0 ← match ls !! STORAGE_KEYS.IMAGE with
               | None => Some None
               | Some item => Some <$> as_text item
               end;
  spotLocations0 ← loadFromStorage as_locations STORAGE_KEYS.LOCATIONS ∅ ls;
  zones0 ← loadFromStorage as_zones STORAGE_KEYS.ZONES [] ls;
  Some {| userRole := None; isConnected := false; socketRef := None;
          spots := spots0; spotLocations := spotLocations0; zones := zones0;
          mapImage := mapImage0; localStorage := ls |}.

(** *** Derived statistics *)

(** A count as a JS number. *)
Fixpoint number (n : nat) : float :=
  match n with
  | O => 0%float
  | S n' => (number n' + 1)%float
  end.

(** [stats], the value of the [useMemo] on [[spots]]. *)
Definition stats (spots : list ParkingSpot) : ParkingStats :=
  let cars := filter (λ s, spot_type s = CAR) spots in
  let motos := filter (λ s, spot_type s = MOTORCYCLE) spots in
  let occupiedCars := length (filter (λ s, spot_status s = OCCUPIED) cars) in
  let occupiedMotos := length (filter (λ s, spot_status s = OCCUPIED) motos) in
  let totalOccupied := (occupiedCars + occupiedMotos)%nat in
  let totalSpots := length spots in
  {| totalCars := length cars;
     occupiedCars := occupiedCars;
     totalMotos := length motos;
     occupiedMotos := occupiedMotos;
     occupancyRate := (number totalOccupied / number totalSpots * 100)%float |}.

End App.

(** ** components/MapView.tsx *)

Module MapView.

(** The names that every object inherits from [Object.prototype]; the
    value read under each of them is truthy. *)
Definition Object_prototype : list string :=
  ["constructor"; "__defineGetter__"; "__defineSetter__"; "hasOwnProperty";
   "__lookupGetter__"; "__lookupSetter__"; "isPrototypeOf"; "propertyIsEnumerable";
   "toString"; "valueOf"; "__proto__"; "toLocaleString"].

(** [unmappedSpots]: the spots [s] for which [spotLocations[s.id]] is
    falsy. The read finds an entry of the object or a property inherited
    from its prototype, here [Object.prototype], the prototype of the
    objects that [JSON.parse] and the spread build. *)
Definition unmappedSpots (spots : list ParkingSpot)
    (spotLocations : gmap string SpotLocation) : list ParkingSpot :=
  filter (λ s, spotLocations !! spot_id s = None ∧ spot_id s ∉ Object_prototype) spots.

End MapView.



(** ** Reading the claims

    The relation between a field before and after an update, as the
    design document words it. *)

(** Whole-field replace: a key present in the payload replaces the field,
    an absent key leaves it. *)
Definition replaced {A} (field : option A) (before after : A) : Prop :=
  match field with
  | Some v => after = v
  | None => after = before
  end.

(** What the guards do to [mapImage]: a present, non-empty string replaces
    the image; an absent key, [null] and the empty string leave it. *)
Definition image_replaced (field : option (option string))
    (before after : option string) : Prop :=
  (∀ s, field = Some (Some s) → s ≠ "" → after = Some s) ∧
  (field = None ∨ field = Some None ∨ field = Some (Some "") → after = before).

(** The relay's document and a client's copy agree on the four shared
    fields. *)
Definition agree (D : Relay.AppState) (st : App.State) : Prop :=
  App.spots st = Relay.spots D ∧
  App.spotLocations st = Relay.spotLocations D ∧
  App.zones st = Relay.zones D ∧
  App.mapImage st = Relay.mapImage D.

(** The UPDATEs of a list of payloads, each with the peer that sent it and
    the instant it reached the relay. *)
Definition updates_at (evs : list (nat * AppStatePayload * Z)) : list (nat * WSMessage * Z) :=
  (λ ev, (ev.1.1, update_msg ev.1.2, ev.2)) <$> evs.

Definition updates (evs : list (nat * AppStatePayload * Z)) : list WSMessage :=
  (λ ev, update_msg ev.1.2) <$> evs.

(** ** Sample data *)

Module Sample.

Definition C01 : ParkingSpot :=
  {| spot_id := "C-01"; spot_type := CAR; spot_status := FREE;
     spot_lastUpdated := Some 1000 |}.

Definition C01_occupied : ParkingSpot :=
  {| spot_id := "C-01"; spot_type := CAR; spot_status := OCCUPIED;
     spot_lastUpdated := Some 2000 |}.

Definition M01 : ParkingSpot :=
  {| spot_id := "M-01"; spot_type := MOTORCYCLE; spot_status := FREE;
     spot_lastUpdated := Some 1000 |}.

Definition entrance : MapZone :=
  {| zone_id := "z1"; zone_label := "Entrance";
     zone_x := 10%float; zone_y := 20%float;
     zone_width := 30%float; zone_height := 12.5%float;
     zone_color := "#22c55e"; zone_type := zone_car |}.

Definition centre : SpotLocation := {| loc_x := 50%float; loc_y := 50%float |}.

Definition floor_plan : string := "data:image/png;base64,iVBORw0KGgo=".

(** A browser whose quota is never reached, and one that is full. *)
Definition roomy : gmap string App.Stored → bool := λ _, true.
Definition full : gmap string App.Stored → bool := λ _, false.

(** A relay seeded with two spots and no floor plan. *)
Definition seeded : Relay.AppState :=
  {| Relay.spots := [C01; M01]; Relay.spotLocations := ∅; Relay.zones := [];
     Relay.mapImage := None; Relay.lastUpdated := 5000 |}.

(** A relay with a floor plan. *)
Definition mapped : Relay.AppState :=
  {| Relay.spots := [C01; M01]; Relay.spotLocations := {[ "C-01" := centre ]};
     Relay.zones := [entrance]; Relay.mapImage := Some floor_plan;
     Relay.lastUpdated := 5000 |}.

(** A client that starts with the two spots and a floor plan of its
    own, nobody logged in, no connection yet. *)
Definition fresh : App.State :=
  {| App.userRole := None; App.isConnected := false; App.socketRef := None;
     App.spots := [C01; M01]; App.spotLocations := ∅; App.zones := [];
     App.mapImage := Some floor_plan; App.localStorage := ∅ |}.

Definition admin_offline : App.State := App.setUserRole (Some ADMIN) fresh.
Definition admin_online : App.State := App.onopen admin_offline.
Definition guest_online : App.State := App.onopen (App.setUserRole (Some GUEST) fresh).

(** A run of the client: it mounts while the relay is down, an
    administrator logs in and toggles C-01, then the connection opens.
    [mount_env] is what the WebSocket effect captured at the mount,
    [at_init] the state in which the first INIT arrives. *)
Definition mount_env : App.Captured := (App.mount roomy fresh).2.

Definition at_init : App.State :=
  App.onopen
    (App.handleToggleSpot roomy "C-01" 2000
       (App.setUserRole (Some ADMIN) (App.mount roomy fresh).1)).1.

(** What a client that holds no spot sends as its seed. *)
Definition empty_seed : AppStatePayload :=
  {| p_spots := Some []; p_spotLocations := Some ∅; p_zones := Some [];
     p_mapImage := Some None |}.

End Sample.


(** ** Reading the statistics *)

(** The two counters of [stats] for a vehicle type. *)
Definition total (t : VehicleType) (p : ParkingStats) : nat :=
  match t with CAR => totalCars p | MOTORCYCLE => totalMotos p end.

Definition occupied (t : VehicleType) (p : ParkingStats) : nat :=
  match t with CAR => occupiedCars p | MOTORCYCLE => occupiedMotos p end.


(** ** From one client to another through the relay *)

(** The messages [out] that a client sent on its socket [ws], as the relay
    receives them at the instant [now]. *)
Definition sent_by (ws : nat) (now : Z) (out : list WSMessage) : list (nat * WSMessage * Z) :=
  (λ m, (ws, m, now)) <$> out.

(** Among the messages the relay sent, those that went to the socket
    [c], in order. *)
Definition delivered_to (c : nat) (sent : list (nat * WSMessage)) : list WSMessage :=
  snd <$> filter (λ x, x.1 = c) sent.

(** The relay's document, and the state of the peer on the socket [c],
    once the relay has handled what the client on [ws] sent and the peer
    has handled what the relay forwarded to it. *)
Definition relay_after (srv : Relay.Server) (ws : nat) (now : Z) (out : list WSMessage)
  : Relay.AppState :=
  Relay.appState (Relay.run srv (sent_by ws now out)).1.

Definition peer_after (fits : gmap string App.Stored → bool) (env : App.Captured)
    (srv : Relay.Server) (ws c : nat) (now : Z) (out : list WSMessage) (peer : App.State)
  : App.State :=
  (App.receive fits env (delivered_to c (Relay.run srv (sent_by ws now out)).2) peer).1.

(** The state of the peer on the socket [c], if it is still mounted, once
    it has revived and handled what the relay forwarded to it. *)
Definition peer_mounted_after (fits : gmap string App.Stored → bool) (env : App.Captured)
    (srv : Relay.Server) (ws c : nat) (now : Z) (out : list WSMessage) (peer : App.State)
  : option App.State :=
  fst <$> App.ws_receive fits env
            (delivered_to c (Relay.run srv (sent_by ws now out)).2) peer.

(** The store holds the spots of the state under their key. *)
Definition spots_recorded (st : App.State) : Prop :=
  App.localStorage st !! App.STORAGE_KEYS.SPOTS = Some (App.json_spots (App.spots st)).

(** * Properties *)

(** ** The model at work *)

(** Scenario A of the design document. The relay starts empty; the first
    client is sent an INIT with no spot and answers with its seed; the
    relay adopts it; the second client is sent those spots. *)
Example scenario_seed_then_init :
  let relay0 := {| Relay.appState := Relay.initial 0; Relay.clients := [] |} in
  let '(relay1, to1) := Relay.connection relay0 1 in
  let answer := (App.receive Sample.roomy (App.first_render Sample.fresh)
                   (snd <$> to1) Sample.fresh).2 in
  let relay2 := (Relay.run relay1 ((λ m, (1%nat, m, 100)) <$> answer)).1 in
  to1 = [(1%nat, init_msg (Relay.payload_of (Relay.initial 0)))] ∧
  answer = [sync_initial_msg
              {| p_spots := Some [Sample.C01; Sample.M01];
                 p_spotLocations := Some ∅; p_zones := Some [];
                 p_mapImage := Some (Some Sample.floor_plan) |}] ∧
  (Relay.connection relay2 2).2
    = [(2%nat, init_msg
                 {| p_spots := Some [Sample.C01; Sample.M01];
                    p_spotLocations := Some ∅; p_zones := Some [];
                    p_mapImage := Some (Some Sample.floor_plan) |})].
Proof. vm_compute. done. Qed.

(** Scenario B. An administrator toggles C-01 while connected: the relay
    forwards the UPDATE to the other client, whose zones and image stay. *)
Example scenario_toggle_reaches_peer :
  let '(_, sent) := App.handleToggleSpot Sample.roomy "C-01" 2000 Sample.admin_online in
  let relay :=
    {| Relay.appState := Sample.seeded;
       Relay.clients := [{| Relay.sock := 1; Relay.readyState := OPEN |};
                         {| Relay.sock := 2; Relay.readyState := OPEN |}] |} in
  let forwarded := (Relay.run relay ((λ m, (1%nat, m, 2001)) <$> sent)).2 in
  let peer := (App.receive Sample.roomy (App.first_render Sample.guest_online)
                 (snd <$> forwarded) Sample.guest_online).1 in
  forwarded = [(2%nat, update_msg (only_spots [Sample.C01_occupied; Sample.M01]))] ∧
  App.spots peer = [Sample.C01_occupied; Sample.M01] ∧
  App.zones peer = App.zones Sample.guest_online ∧
  App.mapImage peer = App.mapImage Sample.guest_online.
Proof. vm_compute. done. Qed.

(** An image that does not fit in [localStorage] is neither shown nor
    sent. *)
Example upload_over_quota :
  App.handleImageUpload Sample.full {| App.reader_result := Some Sample.floor_plan |}
    Sample.admin_online
  = (Sample.admin_online, []).
Proof. reflexivity. Qed.

(** ** The guarded assignment *)

Lemma assign_if_array {A} (field : option (list A)) (target : list A) :
  assign_if field target = spread field target.
Proof. by destruct field. Qed.

Lemma assign_if_object {V} (field : option (gmap string V)) (target : gmap string V) :
  assign_if field target = spread field target.
Proof. by destruct field. Qed.

Lemma assign_if_image (s : string) (target : option string) :
  s ≠ "" → assign_if (Some (Some s)) target = Some s.
Proof. by destruct s. Qed.

Lemma assign_if_falsy (field : option (option string)) (target : option string) :
  field = None ∨ field = Some None ∨ field = Some (Some "") →
  assign_if field target = target.
Proof. by intros [-> | [-> | ->]]. Qed.

Lemma assign_if_idem {A} `{Truthy A} (field : option A) (target : A) :
  assign_if field (assign_if field target) = assign_if field target.
Proof. unfold assign_if. destruct field as [v|]; [|done]. by destruct (truthy v) eqn:E; rewrite ?E. Qed.

(** ** The client's state after a message *)

Section ClientFields.

Variable fits : gmap string App.Stored → bool.

(** The effect on [[spots]] writes [localStorage] and nothing else. *)
Lemma persist_spots_fields (st : App.State) :
  App.userRole (App.persist_spots fits st) = App.userRole st ∧
  App.isConnected (App.persist_spots fits st) = App.isConnected st ∧
  App.socketRef (App.persist_spots fits st) = App.socketRef st ∧
  App.spots (App.persist_spots fits st) = App.spots st ∧
  App.spotLocations (App.persist_spots fits st) = App.spotLocations st ∧
  App.zones (App.persist_spots fits st) = App.zones st ∧
  App.mapImage (App.persist_spots fits st) = App.mapImage st.
Proof. unfold App.persist_spots. by destruct (App.setItem _ _ _ _). Qed.

(** The four fields after the guarded setters of the UPDATE branch. *)
Lemma onmessage_update_fields (env : App.Captured) (p : AppStatePayload) (st : App.State) :
  App.spots (App.onmessage fits env (update_msg p) st).1
    = assign_if (p_spots p) (App.spots st) ∧
  App.spotLocations (App.onmessage fits env (update_msg p) st).1
    = assign_if (p_spotLocations p) (App.spotLocations st) ∧
  App.zones (App.onmessage fits env (update_msg p) st).1
    = assign_if (p_zones p) (App.zones st) ∧
  App.mapImage (App.onmessage fits env (update_msg p) st).1
    = assign_if (p_mapImage p) (App.mapImage st).
Proof.
  destruct p as [ss ls zs img]; simpl.
  destruct ss as [ss|], ls as [ls|], zs as [zs|], img as [[[|c s]|]|]; simpl;
    unfold App.setSpots, App.persist_spots, App.setItem; simpl;
    repeat match goal with |- context [fits ?m] => destruct (fits m) end;
    done.
Qed.

(** An UPDATE is never answered. *)
Lemma onmessage_update_silent (env : App.Captured) (p : AppStatePayload) (st : App.State) :
  (App.onmessage fits env (update_msg p) st).2 = [].
Proof. done. Qed.

End ClientFields.

(** The relay's document after an UPDATE. *)
Lemma message_update_appState (srv : Relay.Server) (ws : nat) (p : AppStatePayload) (now : Z) :
  Relay.appState (Relay.message srv ws (update_msg p) now).1
    = Relay.merge_update (Relay.appState srv) p now.
Proof. done. Qed.

Lemma assign_if_replaced_array {A} (field : option (list A)) (target : list A) :
  replaced field target (assign_if field target).
Proof. by destruct field. Qed.

Lemma assign_if_replaced_object {V} (field : option (gmap string V)) (target : gmap string V) :
  replaced field target (assign_if field target).
Proof. by destruct field. Qed.

Lemma assign_if_image_replaced (field : option (option string)) (target : option string) :
  image_replaced field target (assign_if field target).
Proof.
  split.
  - intros s -> Hs. by apply assign_if_image.
  - apply assign_if_falsy.
Qed.

(** ** A message received by a mounted component *)

(** The reviver returns the message it was given, or nothing. *)
Lemma revive_Some (data message : WSMessage) :
  App.revive data = Some message → message = data.
Proof.
  unfold App.revive. destruct (p_spotLocations (msg_payload data)) as [ls|].
  - case_bool_decide; [|done]. by intros [= <-].
  - by intros [= <-].
Qed.

(** When [ws_onmessage] gives a state, it is the state of [onmessage] on
    the message as it was sent; the reviver left the message as it was,
    and the write of the spots, if any, was accepted. *)
Lemma ws_onmessage_Some
    (fits : gmap string App.Stored → bool) (env : App.Captured)
    (data : WSMessage) (st : App.State) (r : App.State * list WSMessage) :
  App.ws_onmessage fits env data st = Some r →
  r = App.onmessage fits env data st ∧
  App.revive data = Some data ∧
  (∀ ss, App.spots_set data = Some ss → App.spots_write_accepted fits ss st = true).
Proof.
  unfold App.ws_onmessage. destruct (App.revive data) as [message|] eqn:Hrev; [|done].
  apply revive_Some in Hrev as Heq. subst message. simpl.
  destruct (App.spots_set data) as [ss|].
  - destruct (App.spots_write_accepted fits ss st) eqn:Hacc; [|done].
    intros [= <-]. split; [done|]. split; [done|]. by intros ss' [= <-].
  - intros [= <-]. split; [done|]. split; [done|]. by intros ss' [=].
Qed.

(** Conversely. *)
Lemma ws_onmessage_accepted
    (fits : gmap string App.Stored → bool) (env : App.Captured)
    (data : WSMessage) (st : App.State) :
  App.revive data = Some data →
  (∀ ss, App.spots_set data = Some ss → App.spots_write_accepted fits ss st = true) →
  App.ws_onmessage fits env data st = Some (App.onmessage fits env data st).
Proof.
  intros Hrev Hacc. unfold App.ws_onmessage. rewrite Hrev. simpl.
  destruct (App.spots_set data) as [ss|]; [|done]. by rewrite Hacc.
Qed.

(** With a browser that accepts every write, a mounted component handles
    every sequence of messages that the reviver leaves as they are. *)
Lemma ws_receive_accepted
    (fits : gmap string App.Stored → bool) (env : App.Captured)
    (datas : list WSMessage) (st : App.State) :
  (∀ ls, fits ls = true) →
  Forall (λ data, App.revive data = Some data) datas →
  App.ws_receive fits env datas st = Some (App.receive fits env datas st).
Proof.
  intros Hfits Hrev. revert st.
  induction Hrev as [|data datas Hd _ IH]; intros st; [done|].
  simpl. rewrite ws_onmessage_accepted by (done || (intros; apply Hfits)). simpl.
  rewrite IH. simpl.
  destruct (App.onmessage fits env data st) as [st1 out1]. simpl.
  by destruct (App.receive fits env datas st1).
Qed.

(** The first message of a sequence, then the others. *)
Lemma ws_receive_cons
    (fits : gmap string App.Stored → bool) (env : App.Captured)
    (data : WSMessage) (datas : list WSMessage) (st : App.State)
    (r : App.State * list WSMessage) :
  App.ws_receive fits env (data :: datas) st = Some r →
  ∃ r2, App.ws_onmessage fits env data st = Some (App.onmessage fits env data st) ∧
        App.ws_receive fits env datas (App.onmessage fits env data st).1 = Some r2 ∧
        r.1 = r2.1.
Proof.
  simpl. destruct (App.ws_onmessage fits env data st) as [r1|] eqn:H1; [|done].
  apply ws_onmessage_Some in H1 as Hr1. destruct Hr1 as [-> _]. simpl.
  destruct (App.ws_receive fits env datas (App.onmessage fits env data st).1) as [r2|];
    [|done].
  simpl. intros [= <-]. by exists r2.
Qed.

(** The spots that an UPDATE sets, and the store after the write. *)
Lemma onmessage_update_storage
    (fits : gmap string App.Stored → bool) (env : App.Captured)
    (P : AppStatePayload) (st : App.State) :
  (∀ ss, App.spots_set (update_msg P) = Some ss →
         App.spots_write_accepted fits ss st = true) →
  App.localStorage (App.onmessage fits env (update_msg P) st).1
    = match App.spots_set (update_msg P) with
      | Some ss => <[App.STORAGE_KEYS.SPOTS := App.json_spots ss]> (App.localStorage st)
      | None => App.localStorage st
      end.
Proof.
  intros Hacc. destruct P as [ss ls zs img]. simpl in *.
  destruct ss as [ss|]; simpl in *.
  - specialize (Hacc ss eq_refl). unfold App.spots_write_accepted in Hacc.
    destruct ls as [ls|], zs as [zs|], img as [[[|a b]|]|]; simpl;
      unfold App.setSpots, App.persist_spots, App.setItem; simpl; by rewrite Hacc.
  - by destruct ls as [ls|], zs as [zs|], img as [[[|a b]|]|].
Qed.

(** A refused write of the spots unmounts the client: it holds no copy
    in which a field could be replaced. *)
Lemma refused_spots_write_unmounts :
  App.ws_onmessage Sample.full (App.first_render Sample.fresh)
    (update_msg (only_spots [Sample.C01_occupied; Sample.M01])) Sample.fresh = None.
Proof. reflexivity. Qed.

(** The location of an id "lastUpdated" does not reach the client's
    state as a location: the reviver makes a [Date] of it. *)
Lemma location_named_lastUpdated_is_revived :
  App.ws_onmessage Sample.roomy (App.first_render Sample.fresh)
    (update_msg (only_spotLocations {[ "lastUpdated" := Sample.centre ]})) Sample.fresh
  = None.
Proof. reflexivity. Qed.

(** ** C1: an UPDATE replaces the fields it carries *)

(** A [mapImage] key that is present with [null], or with the empty
    string, does not replace the image, neither at the relay nor at a
    client. *)
Lemma update_null_mapImage_keeps_image :
  ¬ replaced (Some None) (Relay.mapImage Sample.mapped)
      (Relay.mapImage
         (Relay.appState
            (Relay.message {| Relay.appState := Sample.mapped; Relay.clients := [] |}
               1 (update_msg (only_mapImage None)) 6000).1)) ∧
  ¬ replaced (Some (Some "")) (Relay.mapImage Sample.mapped)
      (Relay.mapImage
         (Relay.appState
            (Relay.message {| Relay.appState := Sample.mapped; Relay.clients := [] |}
               1 (update_msg (only_mapImage (Some ""))) 6000).1)) ∧
  ¬ replaced (Some None) (App.mapImage Sample.fresh)
      (App.mapImage
         (App.onmessage Sample.roomy (App.first_render Sample.fresh)
            (update_msg (only_mapImage None)) Sample.fresh).1) ∧
  ¬ replaced (Some (Some "")) (App.mapImage Sample.fresh)
      (App.mapImage
         (App.onmessage Sample.roomy (App.first_render Sample.fresh)
            (update_msg (only_mapImage (Some ""))) Sample.fresh).1).
Proof. repeat split; vm_compute; discriminate. Qed.

(** C1, as the code has it. For every document and every UPDATE payload,
    at the relay, and at a client that is still mounted once it has
    revived and handled the message: [spots], [spotLocations] and
    [zones] are replaced as a whole when their key is present and left
    untouched when it is absent; [mapImage] is replaced when its key is
    present with a non-empty string, and left untouched when the key is
    absent, [null] or the empty string. The client is still mounted when
    the reviver leaves the message as it is and the browser accepts the
    write of the spots that the payload carries, if any. *)
Theorem update_replaces_present_fields
    (fits : gmap string App.Stored → bool)
    (srv : Relay.Server) (ws : nat) (now : Z)
    (env : App.Captured) (st : App.State) (P : AppStatePayload) :
  (replaced (p_spots P) (Relay.spots (Relay.appState srv))
     (Relay.spots (Relay.appState (Relay.message srv ws (update_msg P) now).1)) ∧
   replaced (p_spotLocations P) (Relay.spotLocations (Relay.appState srv))
     (Relay.spotLocations (Relay.appState (Relay.message srv ws (update_msg P) now).1)) ∧
   replaced (p_zones P) (Relay.zones (Relay.appState srv))
     (Relay.zones (Relay.appState (Relay.message srv ws (update_msg P) now).1)) ∧
   image_replaced (p_mapImage P) (Relay.mapImage (Relay.appState srv))
     (Relay.mapImage (Relay.appState (Relay.message srv ws (update_msg P) now).1))) ∧
  (∀ st' out,
     App.ws_onmessage fits env (update_msg P) st = Some (st', out) →
     replaced (p_spots P) (App.spots st) (App.spots st') ∧
     replaced (p_spotLocations P) (App.spotLocations st) (App.spotLocations st') ∧
     replaced (p_zones P) (App.zones st) (App.zones st') ∧
     image_replaced (p_mapImage P) (App.mapImage st) (App.mapImage st')) ∧
  (App.revive (update_msg P) = Some (update_msg P) →
   (∀ ss, p_spots P = Some ss → App.spots_write_accepted fits ss st = true) →
   ∃ st' out, App.ws_onmessage fits env (update_msg P) st = Some (st', out)).
Proof.
  split; [|split].
  - rewrite message_update_appState. simpl.
    auto using @assign_if_replaced_array, @assign_if_replaced_object,
      assign_if_image_replaced.
  - intros st' out Hws. apply ws_onmessage_Some in Hws as (Hr & _ & _).
    assert (Hst : st' = (App.onmessage fits env (update_msg P) st).1)
      by (by rewrite <- Hr).
    subst st'.
    destruct (onmessage_update_fields fits env P st) as (-> & -> & -> & ->).
    auto using @assign_if_replaced_array, @assign_if_replaced_object,
      assign_if_image_replaced.
  - intros Hrev Hacc.
    exists (App.onmessage fits env (update_msg P) st).1,
           (App.onmessage fits env (update_msg P) st).2.
    rewrite ws_onmessage_accepted; [by destruct (App.onmessage _ _ _ _)|done|].
    intros ss Hset. apply Hacc. unfold App.spots_set in Hset. simpl in Hset.
    destruct (p_spots P) as [ss'|]; [|done]. done.
Qed.

Lemma update_replaces_present_fields_witness :
  App.ws_onmessage Sample.roomy (App.first_render Sample.fresh)
    (update_msg {| p_spots := Some [Sample.C01_occupied; Sample.M01];
                   p_spotLocations := Some {[ "C-01" := Sample.centre ]};
                   p_zones := None; p_mapImage := Some None |})
    Sample.fresh
  = Some
      ({| App.userRole := None; App.isConnected := false; App.socketRef := None;
          App.spots := [Sample.C01_occupied; Sample.M01];
          App.spotLocations := {[ "C-01" := Sample.centre ]};
          App.zones := [];
          App.mapImage := Some Sample.floor_plan;
          App.localStorage :=
            {[ App.STORAGE_KEYS.SPOTS
                 := App.json_spots [Sample.C01_occupied; Sample.M01] ]} |}, []) ∧
  replaced (Some [Sample.C01_occupied; Sample.M01]) (App.spots Sample.fresh)
    [Sample.C01_occupied; Sample.M01] ∧
  image_replaced (Some None) (App.mapImage Sample.fresh) (Some Sample.floor_plan).
Proof.
  split; [reflexivity|].
  destruct (update_replaces_present_fields Sample.roomy
              {| Relay.appState := Sample.seeded; Relay.clients := [] |} 1 6000
              (App.first_render Sample.fresh) Sample.fresh
              {| p_spots := Some [Sample.C01_occupied; Sample.M01];
                 p_spotLocations := Some {[ "C-01" := Sample.centre ]};
                 p_zones := None; p_mapImage := Some None |})
    as (_ & Hclient & _).
  destruct (Hclient _ [] eq_refl) as (Hs & _ & _ & Hi).
  exact (conj Hs Hi).
Defined.

(** ** C2: INIT from a relay that has spots *)

(** A client that holds a floor plan connects to a relay that has spots
    and no floor plan: it keeps its own image, which is not the relay's. *)
Lemma init_null_mapImage_keeps_local_image :
  App.spots
    (App.onmessage Sample.roomy (App.first_render Sample.fresh)
       (init_msg (Relay.payload_of Sample.seeded)) Sample.fresh).1
    = Relay.spots Sample.seeded ∧
  Relay.spots Sample.seeded ≠ [] ∧
  App.mapImage
    (App.onmessage Sample.roomy (App.first_render Sample.fresh)
       (init_msg (Relay.payload_of Sample.seeded)) Sample.fresh).1
    ≠ Relay.mapImage Sample.seeded.
Proof. repeat split; vm_compute; discriminate. Qed.

(** The state that [onmessage] gives on the INIT of a relay that has
    spots. *)
Lemma onmessage_init_nonempty
    (fits : gmap string App.Stored → bool)
    (env : App.Captured) (D : Relay.AppState) (st : App.State) :
  Relay.spots D ≠ [] →
  App.spots (App.onmessage fits env (init_msg (Relay.payload_of D)) st).1
    = Relay.spots D ∧
  App.spotLocations (App.onmessage fits env (init_msg (Relay.payload_of D)) st).1
    = Relay.spotLocations D ∧
  App.zones (App.onmessage fits env (init_msg (Relay.payload_of D)) st).1
    = Relay.zones D ∧
  image_replaced (Some (Relay.mapImage D)) (App.mapImage st)
    (App.mapImage (App.onmessage fits env (init_msg (Relay.payload_of D)) st).1) ∧
  (App.onmessage fits env (init_msg (Relay.payload_of D)) st).2 = [].
Proof.
  intros Hne. destruct D as [ss ls zs img t]; simpl in *.
  destruct ss as [|s ss]; [done|].
  unfold App.onmessage; simpl.
  unfold App.setSpots, App.persist_spots, App.setItem; simpl.
  destruct img as [[|c i]|]; destruct (fits _); simpl; repeat split; try done.
  all: try (by intros s' [= <-] ?).
  all: by intros [[=] | [[=] | [=]]].
Qed.

(** C2, as the code has it. On the INIT of a relay whose document [D] has
    spots, for a client that is still mounted once it has revived and
    handled the message, whatever it held before: its [spots],
    [spotLocations] and [zones] are those of [D]; its [mapImage] is that
    of [D] when [D] has a non-empty image and is what it was when [D] has
    none; nothing is sent. The client is still mounted when [D] has no
    location under the id "lastUpdated" and the browser accepts the
    write of the spots of [D]. *)
Theorem init_nonempty_overwrites_local
    (fits : gmap string App.Stored → bool)
    (env : App.Captured) (D : Relay.AppState) (st : App.State) :
  Relay.spots D ≠ [] →
  (∀ st' out,
     App.ws_onmessage fits env (init_msg (Relay.payload_of D)) st = Some (st', out) →
     App.spots st' = Relay.spots D ∧
     App.spotLocations st' = Relay.spotLocations D ∧
     App.zones st' = Relay.zones D ∧
     image_replaced (Some (Relay.mapImage D)) (App.mapImage st) (App.mapImage st') ∧
     out = []) ∧
  (Relay.spotLocations D !! "lastUpdated" = None →
   App.spots_write_accepted fits (Relay.spots D) st = true →
   ∃ st' out,
     App.ws_onmessage fits env (init_msg (Relay.payload_of D)) st = Some (st', out)).
Proof.
  intros Hne. split.
  - intros st' out Hws. apply ws_onmessage_Some in Hws as (Hr & _ & _).
    pose proof (onmessage_init_nonempty fits env D st Hne) as H.
    rewrite <- Hr in H. exact H.
  - intros Hkey Hacc.
    exists (App.onmessage fits env (init_msg (Relay.payload_of D)) st).1,
           (App.onmessage fits env (init_msg (Relay.payload_of D)) st).2.
    rewrite ws_onmessage_accepted; [by destruct (App.onmessage _ _ _ _)| |].
    + unfold App.revive. simpl. by rewrite bool_decide_eq_true_2.
    + intros ss Hset. unfold App.spots_set in Hset. simpl in Hset.
      revert Hacc Hset. destruct (Relay.spots D) as [|s l]; [done|]. simpl.
      by intros Hacc [= <-].
Qed.

Lemma init_nonempty_overwrites_local_witness :
  App.spots Sample.at_init = [Sample.C01_occupied; Sample.M01] ∧
  App.zones Sample.at_init = [] ∧
  ∃ st',
    App.ws_onmessage Sample.roomy Sample.mount_env
      (init_msg (Relay.payload_of Sample.mapped)) Sample.at_init = Some (st', []) ∧
    App.spots st' = [Sample.C01; Sample.M01] ∧
    App.zones st' = [Sample.entrance].
Proof.
  split; [reflexivity|]. split; [reflexivity|].
  eexists. split; [reflexivity|].
  destruct (init_nonempty_overwrites_local Sample.roomy Sample.mount_env Sample.mapped
              Sample.at_init) as [Hclient _]; [discriminate|].
  destruct (Hclient _ [] eq_refl) as (Hs & _ & Hz & _).
  exact (conj Hs Hz).
Defined.

(** ** C3: INIT from an empty relay *)

(** The seed is the state the WebSocket effect captured. *)
Lemma init_empty_sends_captured
    (fits : gmap string App.Stored → bool)
    (env : App.Captured) (D : Relay.AppState) (st : App.State) :
  Relay.spots D = [] →
  App.onmessage fits env (init_msg (Relay.payload_of D)) st
    = (st, [sync_initial_msg
              {| p_spots := Some (App.c_spots env);
                 p_spotLocations := Some (App.c_spotLocations env);
                 p_zones := Some (App.c_zones env);
                 p_mapImage := Some (App.c_mapImage env) |}]).
Proof. intros HD. unfold App.onmessage; simpl. by rewrite HD. Qed.

(** It is the current state as long as the four variables are those of
    the first render. *)
Lemma init_empty_sends_current_when_unchanged
    (fits : gmap string App.Stored → bool)
    (D : Relay.AppState) (st : App.State) :
  Relay.spots D = [] →
  (App.onmessage fits (App.first_render st) (init_msg (Relay.payload_of D)) st).2
    = [sync_initial_msg
         {| p_spots := Some (App.spots st);
            p_spotLocations := Some (App.spotLocations st);
            p_zones := Some (App.zones st);
            p_mapImage := Some (App.mapImage st) |}].
Proof. intros HD. by rewrite init_empty_sends_captured. Qed.

(** C3 on a run of the client. The component mounts while the relay is
    down, an administrator logs in and toggles C-01, then the connection
    opens to an empty relay. When its INIT arrives the client holds C-01
    occupied; the SYNC_INITIAL that answers carries the spots of the
    first render, C-01 free, which are not the spots the client holds. *)
Theorem seed_carries_first_render_state :
  App.spots Sample.at_init = [Sample.C01_occupied; Sample.M01] ∧
  (App.onmessage Sample.roomy Sample.mount_env
     (init_msg (Relay.payload_of (Relay.initial 0))) Sample.at_init).2
    = [sync_initial_msg
         {| p_spots := Some [Sample.C01; Sample.M01];
            p_spotLocations := Some ∅;
            p_zones := Some [];
            p_mapImage := Some (Some Sample.floor_plan) |}] ∧
  (App.onmessage Sample.roomy Sample.mount_env
     (init_msg (Relay.payload_of (Relay.initial 0))) Sample.at_init).2
    ≠ [sync_initial_msg
         {| p_spots := Some (App.spots Sample.at_init);
            p_spotLocations := Some (App.spotLocations Sample.at_init);
            p_zones := Some (App.zones Sample.at_init);
            p_mapImage := Some (App.mapImage Sample.at_init) |}].
Proof. repeat split; vm_compute; congruence. Qed.

(** ** C4: seeding the relay *)

(** The relay's document after a SYNC_INITIAL. *)
Lemma message_sync_initial (srv : Relay.Server) (ws : nat) (p : AppStatePayload) (now : Z) :
  Relay.message srv ws (sync_initial_msg p) now
    = ({| Relay.appState :=
            if bool_decide (length (Relay.spots (Relay.appState srv)) = 0%nat)
            then Relay.adopt (Relay.appState srv) p
            else Relay.appState srv;
          Relay.clients := Relay.clients srv |}, []).
Proof. done. Qed.

(** A first seed whose [spots] is empty leaves the relay empty: the
    second seed is adopted, and the document is not the one the first
    seed left. *)
Lemma second_seed_adopted_after_empty_seed :
  Relay.spots (Relay.initial 0) = [] ∧
  Relay.appState
    (Relay.run {| Relay.appState := Relay.initial 0; Relay.clients := [] |}
       [(1%nat, sync_initial_msg Sample.empty_seed, 10);
        (2%nat, sync_initial_msg (Relay.payload_of Sample.mapped), 20)]).1
  ≠ Relay.appState
      (Relay.run {| Relay.appState := Relay.initial 0; Relay.clients := [] |}
         [(1%nat, sync_initial_msg Sample.empty_seed, 10)]).1.
Proof. split; [reflexivity|]. vm_compute. discriminate. Qed.

(** C4, as the code has it. Given a relay whose document has empty
    [spots], the first SYNC_INITIAL, whatever its payload, is adopted key
    by key: each key of its payload overwrites the field, a [null] image
    and an empty [spots] included, each absent key leaves the field, the
    stamp and the clients are kept, and nothing is sent. When that
    payload carries a non-empty [spots], a second SYNC_INITIAL received
    right after leaves the relay as it is. *)
Theorem seed_once
    (srv : Relay.Server) (ws1 ws2 : nat) (P1 P2 : AppStatePayload) (now1 now2 : Z) :
  Relay.spots (Relay.appState srv) = [] →
  (replaced (p_spots P1) (Relay.spots (Relay.appState srv))
     (Relay.spots (Relay.appState (Relay.message srv ws1 (sync_initial_msg P1) now1).1)) ∧
   replaced (p_spotLocations P1) (Relay.spotLocations (Relay.appState srv))
     (Relay.spotLocations
        (Relay.appState (Relay.message srv ws1 (sync_initial_msg P1) now1).1)) ∧
   replaced (p_zones P1) (Relay.zones (Relay.appState srv))
     (Relay.zones (Relay.appState (Relay.message srv ws1 (sync_initial_msg P1) now1).1)) ∧
   replaced (p_mapImage P1) (Relay.mapImage (Relay.appState srv))
     (Relay.mapImage (Relay.appState (Relay.message srv ws1 (sync_initial_msg P1) now1).1)) ∧
   Relay.lastUpdated (Relay.appState (Relay.message srv ws1 (sync_initial_msg P1) now1).1)
     = Relay.lastUpdated (Relay.appState srv) ∧
   Relay.clients (Relay.message srv ws1 (sync_initial_msg P1) now1).1
     = Relay.clients srv ∧
   (Relay.message srv ws1 (sync_initial_msg P1) now1).2 = []) ∧
  (∀ ss, p_spots P1 = Some ss → ss ≠ [] →
     Relay.message (Relay.message srv ws1 (sync_initial_msg P1) now1).1 ws2
         (sync_initial_msg P2) now2
       = ((Relay.message srv ws1 (sync_initial_msg P1) now1).1, [])).
Proof.
  intros Hempty.
  rewrite !message_sync_initial. simpl. rewrite Hempty. simpl.
  split.
  - destruct P1 as [[ss|] [ls|] [zs|] [img|]]; simpl; by rewrite ?Hempty.
  - intros ss HP1 Hss. rewrite HP1. simpl. by destruct ss.
Qed.

Lemma seed_once_witness :
  Relay.appState
    (Relay.message {| Relay.appState := Relay.initial 0; Relay.clients := [] |} 1
       (sync_initial_msg (Relay.payload_of Sample.mapped)) 10).1
  = {| Relay.spots := [Sample.C01; Sample.M01];
       Relay.spotLocations := {[ "C-01" := Sample.centre ]};
       Relay.zones := [Sample.entrance];
       Relay.mapImage := Some Sample.floor_plan;
       Relay.lastUpdated := 0 |} ∧
  Relay.message
    (Relay.message {| Relay.appState := Relay.initial 0; Relay.clients := [] |} 1
       (sync_initial_msg (Relay.payload_of Sample.mapped)) 10).1
    2 (sync_initial_msg (only_spots [Sample.C01_occupied])) 20
  = ((Relay.message {| Relay.appState := Relay.initial 0; Relay.clients := [] |} 1
        (sync_initial_msg (Relay.payload_of Sample.mapped)) 10).1, []).
Proof.
  split; [reflexivity|].
  apply (proj2 (seed_once {| Relay.appState := Relay.initial 0; Relay.clients := [] |}
                  1 2 (Relay.payload_of Sample.mapped)
                  (only_spots [Sample.C01_occupied]) 10 20 eq_refl)
           [Sample.C01; Sample.M01]); [reflexivity | discriminate].
Defined.

(** ** C5: what the persistence fallback records *)



(** The state after [setSpots] once the write of the effect is
    accepted. *)
Lemma setSpots_accepted
    (fits : gmap string App.Stored → bool) (v : list ParkingSpot) (st : App.State) :
  App.spots_write_accepted fits v st = true →
  App.spots (App.setSpots fits v st) = v ∧ spots_recorded (App.setSpots fits v st).
Proof.
  unfold App.spots_write_accepted, spots_recorded.
  unfold App.setSpots, App.persist_spots, App.setItem. simpl. intros ->. simpl.
  by rewrite lookup_insert_eq.
Qed.



(** ** C6: the client mirrors the relay *)

(** One UPDATE keeps the relay's document and a client's copy in
    agreement. *)
Lemma agree_step
    (fits : gmap string App.Stored → bool)
    (srv : Relay.Server) (ws : nat) (now : Z)
    (env : App.Captured) (st : App.State) (P : AppStatePayload) :
  agree (Relay.appState srv) st →
  agree (Relay.appState (Relay.message srv ws (update_msg P) now).1)
    (App.onmessage fits env (update_msg P) st).1.
Proof.
  intros (Hs & Hl & Hz & Hi).
  destruct (onmessage_update_fields fits env P st) as (Es & El & Ez & Ei).
  rewrite message_update_appState. unfold agree.
  rewrite Es, El, Ez, Ei, Hs, Hl, Hz, Hi. done.
Qed.

(** The state after a sequence of messages is the state after its tail,
    from the state after its head. *)
Lemma run_cons_state (srv : Relay.Server) (ws : nat) (m : WSMessage) (now : Z)
    (evs : list (nat * WSMessage * Z)) :
  (Relay.run srv ((ws, m, now) :: evs)).1
    = (Relay.run (Relay.message srv ws m now).1 evs).1.
Proof.
  simpl. destruct (Relay.message srv ws m now) as [srv1 out1]. simpl.
  by destruct (Relay.run srv1 evs).
Qed.

Lemma receive_cons_state
    (fits : gmap string App.Stored → bool) (env : App.Captured)
    (m : WSMessage) (ms : list WSMessage) (st : App.State) :
  (App.receive fits env (m :: ms) st).1
    = (App.receive fits env ms (App.onmessage fits env m st).1).1.
Proof.
  simpl. destruct (App.onmessage fits env m st) as [st1 out1]. simpl.
  by destruct (App.receive fits env ms st1).
Qed.

(** C6. From a relay document and a client copy that agree on [spots],
    [spotLocations], [zones] and [mapImage], the same sequence of UPDATE
    payloads, handled by the relay (whoever sent each and whenever) and
    by a client that is still mounted once it has revived and handled
    them all, leaves the two in agreement on the four fields. The client
    is still mounted when its browser accepts every write and its
    reviver leaves every message as it is. The instant of a spot is a
    text at the relay and a [Date] at the client. *)
Theorem client_mirrors_relay
    (fits : gmap string App.Stored → bool) (env : App.Captured)
    (evs : list (nat * AppStatePayload * Z))
    (srv : Relay.Server) (st : App.State) :
  agree (Relay.appState srv) st →
  (∀ st' out,
     App.ws_receive fits env (updates evs) st = Some (st', out) →
     agree (Relay.appState (Relay.run srv (updates_at evs)).1) st') ∧
  ((∀ ls, fits ls = true) →
   Forall (λ data, App.revive data = Some data) (updates evs) →
   ∃ st' out, App.ws_receive fits env (updates evs) st = Some (st', out)).
Proof.
  intros Hagree. split.
  - revert srv st Hagree.
    induction evs as [|[[ws P] now] evs IH]; intros srv st Hagree st' out Hws.
    + injection Hws as <- _. done.
    + unfold updates_at, updates in *. rewrite !fmap_cons in *.
      rewrite run_cons_state.
      apply ws_receive_cons in Hws as ([st2 out2] & _ & Hrest & Hst). simpl in Hst.
      subst st2. eapply IH; [|exact Hrest]. by apply agree_step.
  - intros Hfits Hrev.
    exists (App.receive fits env (updates evs) st).1,
           (App.receive fits env (updates evs) st).2.
    rewrite ws_receive_accepted by done. by destruct (App.receive _ _ _ _).
Qed.

Lemma client_mirrors_relay_witness :
  agree
    (Relay.appState
       (Relay.run {| Relay.appState := Sample.mapped; Relay.clients := [] |}
          (updates_at
             [(1%nat, only_spots [Sample.C01_occupied; Sample.M01], 6000);
              (2%nat, only_mapImage None, 7000);
              (1%nat, only_spotLocations {[ "M-01" := Sample.centre ]}, 7500);
              (1%nat, only_zones [], 8000)])).1)
    (App.receive Sample.roomy (App.first_render Sample.fresh)
       (updates
          [(1%nat, only_spots [Sample.C01_occupied; Sample.M01], 6000);
           (2%nat, only_mapImage None, 7000);
           (1%nat, only_spotLocations {[ "M-01" := Sample.centre ]}, 7500);
           (1%nat, only_zones [], 8000)])
       (App.onmessage Sample.roomy (App.first_render Sample.fresh)
          (init_msg (Relay.payload_of Sample.mapped)) Sample.fresh).1).1.
Proof.
  refine (proj1 (client_mirrors_relay Sample.roomy (App.first_render Sample.fresh)
                   [(1%nat, only_spots [Sample.C01_occupied; Sample.M01], 6000);
                    (2%nat, only_mapImage None, 7000);
                    (1%nat, only_spotLocations {[ "M-01" := Sample.centre ]}, 7500);
                    (1%nat, only_zones [], 8000)]
                   {| Relay.appState := Sample.mapped; Relay.clients := [] |}
                   (App.onmessage Sample.roomy (App.first_render Sample.fresh)
                      (init_msg (Relay.payload_of Sample.mapped)) Sample.fresh).1
                   _) _ [] _).
  - repeat split.
  - reflexivity.
Defined.

(** ** C7: the fan-out of an UPDATE *)

(** Who is sent what. *)
Lemma elem_of_broadcast (cs : list Relay.WebSocket) (ws : nat) (P : AppStatePayload)
    (c : nat) (m : WSMessage) :
  (c, m) ∈ Relay.broadcast cs ws P ↔
  m = update_msg P ∧ c ≠ ws ∧ {| Relay.sock := c; Relay.readyState := OPEN |} ∈ cs.
Proof.
  unfold Relay.broadcast. rewrite list_elem_of_omap. split.
  - intros ([c' r] & Hin & Hsome). simpl in Hsome.
    case_bool_decide as Hc; [|done].
    destruct Hc as [Hne ->]. by injection Hsome as -> ->.
  - intros (-> & Hne & Hin). eexists; split; [exact Hin|]. simpl.
    by rewrite bool_decide_eq_true_2.
Qed.

(** The number of messages: one per open client other than the sender. *)
Lemma length_broadcast (cs : list Relay.WebSocket) (ws : nat) (P : AppStatePayload) :
  NoDup (Relay.sock <$> cs) →
  ws ∈ (Relay.sock <$> cs) →
  Forall (λ c, Relay.readyState c = OPEN) cs →
  S (length (Relay.broadcast cs ws P)) = length cs.
Proof.
  unfold Relay.broadcast.
  induction cs as [|[c r] cs IH]; intros Hnd Hin Hopen; simpl in *.
  - by apply elem_of_nil in Hin.
  - apply NoDup_cons in Hnd as [Hc Hnd]. apply Forall_cons in Hopen as [Hr Hopen].
    simpl in Hr. subst r.
    destruct (decide (c = ws)) as [->|Hne].
    + rewrite bool_decide_eq_false_2 by (by intros [? _]). f_equal.
      clear IH Hin Hnd. induction cs as [|[c' r'] cs IH]; [done|]. simpl in *.
      apply Forall_cons in Hopen as [Hr' Hopen]. simpl in Hr'. subst r'.
      apply not_elem_of_cons in Hc as [Hc' Hc].
      rewrite bool_decide_eq_true_2 by done. simpl. f_equal. by apply IH.
    + rewrite bool_decide_eq_true_2 by done. simpl. f_equal.
      apply IH; [done| |done]. apply elem_of_cons in Hin as [?|?]; [congruence|done].
Qed.

(** C7. When the relay handles an UPDATE from the peer [ws]: every message
    it sends is the UPDATE with the received payload, to a peer other
    than [ws]; every open peer other than [ws] is sent it, once; [ws] is
    sent nothing; and when the [N] connected sockets are all open, [N - 1]
    messages are sent. *)
Theorem update_fan_out
    (srv : Relay.Server) (ws : nat) (P : AppStatePayload) (now : Z) :
  NoDup (Relay.sock <$> Relay.clients srv) →
  ws ∈ (Relay.sock <$> Relay.clients srv) →
  (∀ c m, (c, m) ∈ (Relay.message srv ws (update_msg P) now).2 →
          m = update_msg P ∧ c ≠ ws) ∧
  (∀ c, c ≠ ws → {| Relay.sock := c; Relay.readyState := OPEN |} ∈ Relay.clients srv →
        (c, update_msg P) ∈ (Relay.message srv ws (update_msg P) now).2) ∧
  NoDup (Relay.message srv ws (update_msg P) now).2 ∧
  (∀ m, (ws, m) ∉ (Relay.message srv ws (update_msg P) now).2) ∧
  (Forall (λ c, Relay.readyState c = OPEN) (Relay.clients srv) →
   length (Relay.message srv ws (update_msg P) now).2
     = (length (Relay.clients srv) - 1)%nat).
Proof.
  intros Hnd Hin.
  change (Relay.message srv ws (update_msg P) now).2
    with (Relay.broadcast (Relay.clients srv) ws P).
  repeat split.
  - by destruct (proj1 (elem_of_broadcast _ _ _ _ _) H) as (? & ? & ?).
  - by destruct (proj1 (elem_of_broadcast _ _ _ _ _) H) as (? & ? & ?).
  - intros c Hne Hc. by apply elem_of_broadcast.
  - unfold Relay.broadcast. clear Hin.
    induction (Relay.clients srv) as [|[c r] cs IH]; simpl in *; [constructor|].
    apply NoDup_cons in Hnd as [Hc Hnd].
    case_bool_decide as Hd; [|by apply IH].
    constructor; [|by apply IH].
    intros Hin. destruct (proj1 (elem_of_broadcast cs ws P _ _) Hin) as (? & ? & Hin').
    apply Hc. apply list_elem_of_fmap. by eexists; split; [|exact Hin'].
  - intros m Hm. by destruct (proj1 (elem_of_broadcast _ _ _ _ _) Hm) as (? & ? & ?).
  - intros Hopen. pose proof (length_broadcast _ _ P Hnd Hin Hopen). lia.
Qed.

Lemma update_fan_out_witness :
  (Relay.message
     {| Relay.appState := Sample.seeded;
        Relay.clients :=
          [{| Relay.sock := 1; Relay.readyState := OPEN |};
           {| Relay.sock := 2; Relay.readyState := OPEN |};
           {| Relay.sock := 3; Relay.readyState := CLOSING |};
           {| Relay.sock := 4; Relay.readyState := OPEN |}] |}
     2 (update_msg (only_spots [Sample.C01_occupied; Sample.M01])) 6000).2
  = [(1%nat, update_msg (only_spots [Sample.C01_occupied; Sample.M01]));
     (4%nat, update_msg (only_spots [Sample.C01_occupied; Sample.M01]))] ∧
  ∀ m, (2%nat, m) ∉
    (Relay.message
       {| Relay.appState := Sample.seeded;
          Relay.clients :=
            [{| Relay.sock := 1; Relay.readyState := OPEN |};
             {| Relay.sock := 2; Relay.readyState := OPEN |};
             {| Relay.sock := 3; Relay.readyState := CLOSING |};
             {| Relay.sock := 4; Relay.readyState := OPEN |}] |}
       2 (update_msg (only_spots [Sample.C01_occupied; Sample.M01])) 6000).2.
Proof.
  split; [reflexivity|].
  apply update_fan_out.
  - apply (bool_decide_unpack _). vm_compute. exact I.
  - apply (bool_decide_unpack _). vm_compute. exact I.
Defined.

(** ** C8: applying an UPDATE twice *)

(** The guarded setters of the client, on the whole state. *)
Lemma onmessage_update_idem
    (fits : gmap string App.Stored → bool) (env : App.Captured)
    (P : AppStatePayload) (st : App.State) :
  (App.onmessage fits env (update_msg P)
     (App.onmessage fits env (update_msg P) st).1).1
    = (App.onmessage fits env (update_msg P) st).1.
Proof.
  destruct P as [ss ls zs img], st as [r c k s l z i store]; simpl.
  destruct ss as [ss|], ls as [ls|], zs as [zs|], img as [[[|a b]|]|]; simpl;
    unfold App.setSpots, App.persist_spots, App.setItem; simpl; try done.
  all: destruct (fits (<[App.STORAGE_KEYS.SPOTS:=App.json_spots ss]> store)) eqn:E;
    simpl; rewrite ?insert_insert_eq, E; done.
Qed.

(** C8. For every client copy and every relay document, and every UPDATE
    payload: handling the payload twice leaves the state that handling it
    once leaves. At a client this is the whole state, [localStorage]
    included: a client that is mounted after the first handling is
    mounted after the second, in the same state and having sent nothing,
    and a client that the first handling unmounts stays so. At the relay
    it is the document as stamped by the last handling. *)
Theorem update_idempotent
    (fits : gmap string App.Stored → bool) (env : App.Captured)
    (srv : Relay.Server) (ws1 ws2 : nat) (now1 now2 : Z)
    (P : AppStatePayload) (st : App.State) :
  fst <$> App.ws_receive fits env [update_msg P; update_msg P] st
    = fst <$> App.ws_receive fits env [update_msg P] st ∧
  (∀ st' out,
     App.ws_onmessage fits env (update_msg P) st = Some (st', out) →
     App.ws_onmessage fits env (update_msg P) st' = Some (st', [])) ∧
  (Relay.run srv [(ws1, update_msg P, now1); (ws2, update_msg P, now2)]).1
    = (Relay.run srv [(ws2, update_msg P, now2)]).1.
Proof.
  assert (Hagain : ∀ st' out,
            App.ws_onmessage fits env (update_msg P) st = Some (st', out) →
            App.ws_onmessage fits env (update_msg P) st' = Some (st', [])).
  { intros st' out Hws. apply ws_onmessage_Some in Hws as (Hr & Hrev & Hacc).
    assert (Hst : st' = (App.onmessage fits env (update_msg P) st).1)
      by (by rewrite <- Hr).
    rewrite ws_onmessage_accepted; [|done|].
    - f_equal. apply injective_projections.
      + cbn [fst]. rewrite Hst. apply onmessage_update_idem.
      + apply onmessage_update_silent.
    - intros ss Hset. unfold App.spots_write_accepted.
      rewrite Hst, onmessage_update_storage by done. rewrite Hset.
      rewrite insert_insert_eq. by apply Hacc. }
  split; [|split; [exact Hagain|]].
  - cbn [App.ws_receive].
    destruct (App.ws_onmessage fits env (update_msg P) st) as [[st' out]|] eqn:Hws;
      [|done].
    cbn [mbind option_bind fst snd]. by rewrite (Hagain st' out eq_refl).
  - rewrite !run_cons_state. cbn [Relay.run fst].
    destruct srv as [D cs]. unfold Relay.message, Relay.merge_update. simpl.
    by rewrite !assign_if_idem.
Qed.

(** ** C9: [spots] and [zones] are independent *)

(** C9. Handling [{spots: ss}] and then [{zones: zs}] leaves the document
    with [spots = ss], [zones = zs] and its other fields untouched, and the
    opposite order leaves the same state: at the relay, where the stamp is
    that of the last message handled, and at a client, which is still
    mounted exactly when the browser accepts the write of [ss], whatever
    the order, and where [localStorage] is the same too. *)
Theorem spots_zones_independent
    (fits : gmap string App.Stored → bool) (env : App.Captured)
    (srv : Relay.Server) (ws1 ws2 : nat) (now1 now2 : Z)
    (ss : list ParkingSpot) (zs : list MapZone) (st : App.State) :
  Relay.appState
    (Relay.run srv [(ws1, update_msg (only_spots ss), now1);
                    (ws2, update_msg (only_zones zs), now2)]).1
    = {| Relay.spots := ss;
         Relay.spotLocations := Relay.spotLocations (Relay.appState srv);
         Relay.zones := zs;
         Relay.mapImage := Relay.mapImage (Relay.appState srv);
         Relay.lastUpdated := now2 |} ∧
  (Relay.run srv [(ws1, update_msg (only_zones zs), now1);
                  (ws2, update_msg (only_spots ss), now2)]).1
    = (Relay.run srv [(ws1, update_msg (only_spots ss), now1);
                      (ws2, update_msg (only_zones zs), now2)]).1 ∧
  (App.spots_write_accepted fits ss st = true →
   ∃ st',
     App.ws_receive fits env [update_msg (only_spots ss); update_msg (only_zones zs)] st
       = Some (st', []) ∧
     App.spots st' = ss ∧
     App.zones st' = zs ∧
     App.spotLocations st' = App.spotLocations st ∧
     App.mapImage st' = App.mapImage st) ∧
  (App.spots_write_accepted fits ss st = false →
   App.ws_receive fits env [update_msg (only_spots ss); update_msg (only_zones zs)] st
     = None) ∧
  App.ws_receive fits env [update_msg (only_zones zs); update_msg (only_spots ss)] st
    = App.ws_receive fits env [update_msg (only_spots ss); update_msg (only_zones zs)] st.
Proof.
  split; [|split; [|split; [|split]]].
  - done.
  - done.
  - intros Hacc. cbn [App.ws_receive]. unfold App.ws_onmessage. simpl.
    rewrite Hacc. simpl. eexists. split; [reflexivity|].
    unfold App.setSpots, App.persist_spots, App.setItem; simpl.
    unfold App.spots_write_accepted in Hacc. by rewrite Hacc.
  - intros Hacc. cbn [App.ws_receive]. unfold App.ws_onmessage. simpl.
    by rewrite Hacc.
  - cbn [App.ws_receive]. unfold App.ws_onmessage, App.spots_write_accepted. simpl.
    destruct (fits _) eqn:Hacc; simpl; [|done].
    unfold App.setSpots, App.persist_spots, App.setItem; simpl. by rewrite Hacc.
Qed.

(** ** C10: a guest changes nothing *)

(** C10. When the role is GUEST, each of the seven mutating handlers
    returns the state it was given and sends nothing; the quick save
    returns [false]. *)
Theorem guest_handlers_inert
    (fits : gmap string App.Stored → bool) (st : App.State) :
  App.userRole st = Some GUEST →
  (∀ id now, App.handleToggleSpot fits id now st = (st, [])) ∧
  (∀ id location, App.handleUpdateLocation id location st = (st, [])) ∧
  (∀ zone, App.handleAddZone zone st = (st, [])) ∧
  (∀ id updates, App.handleUpdateZone id updates st = (st, [])) ∧
  (∀ id, App.handleDeleteZone id st = (st, [])) ∧
  (∀ file, App.handleImageUpload fits file st = (st, [])) ∧
  App.handleQuickSaveLayout fits st = (false, st, []).
Proof.
  intros Hrole.
  assert (Hguest : App.isGuest st = true)
    by (unfold App.isGuest; by rewrite bool_decide_eq_true_2).
  unfold App.handleToggleSpot, App.handleUpdateLocation, App.handleAddZone,
    App.handleUpdateZone, App.handleDeleteZone, App.handleImageUpload,
    App.handleQuickSaveLayout.
  by rewrite Hguest.
Qed.

Lemma guest_handlers_inert_witness :
  App.userRole Sample.guest_online = Some GUEST ∧
  App.handleToggleSpot Sample.roomy "C-01" 2000 Sample.guest_online
    = (Sample.guest_online, []) ∧
  App.handleToggleSpot Sample.roomy "C-01" 2000 Sample.admin_online
    ≠ (Sample.admin_online, []).
Proof.
  split; [reflexivity|]. split.
  - apply (guest_handlers_inert Sample.roomy Sample.guest_online). reflexivity.
  - vm_compute. discriminate.
Defined.

(** * Further properties of the code *)

(** ** The relay over a run of messages *)

(** A message changes neither the set of clients nor their sockets. *)
Lemma message_clients (srv : Relay.Server) (ws : nat) (data : WSMessage) (now : Z) :
  Relay.clients (Relay.message srv ws data now).1 = Relay.clients srv.
Proof. unfold Relay.message. by destruct (bool_decide _). Qed.

(** The messages sent by a run are those of its head, then those of its
    tail. *)
Lemma run_cons_sent (srv : Relay.Server) (ws : nat) (m : WSMessage) (now : Z)
    (evs : list (nat * WSMessage * Z)) :
  (Relay.run srv ((ws, m, now) :: evs)).2
    = (Relay.message srv ws m now).2 ++ (Relay.run (Relay.message srv ws m now).1 evs).2.
Proof.
  simpl. destruct (Relay.message srv ws m now) as [srv1 out1]. simpl.
  by destruct (Relay.run srv1 evs).
Qed.

Lemma run_clients (srv : Relay.Server) (evs : list (nat * WSMessage * Z)) :
  Relay.clients (Relay.run srv evs).1 = Relay.clients srv.
Proof.
  revert srv. induction evs as [|[[ws m] now] evs IH]; intros srv; [done|].
  by rewrite run_cons_state, IH, message_clients.
Qed.

(** What a message sends: nothing, unless it is an UPDATE. *)
Lemma message_sent (srv : Relay.Server) (ws : nat) (data : WSMessage) (now : Z) :
  (Relay.message srv ws data now).2
    = if bool_decide (msg_type data = UPDATE)
      then Relay.broadcast (Relay.clients srv) ws (msg_payload data)
      else [].
Proof. unfold Relay.message. by destruct (bool_decide _). Qed.

(** A message of a run goes to a client whose socket is open. *)
Lemma run_sent_to_open_client (srv : Relay.Server) (evs : list (nat * WSMessage * Z))
    (c : nat) (m : WSMessage) :
  (c, m) ∈ (Relay.run srv evs).2 →
  {| Relay.sock := c; Relay.readyState := OPEN |} ∈ Relay.clients srv.
Proof.
  revert srv. induction evs as [|[[ws data] now] evs IH]; intros srv Hin.
  - by apply elem_of_nil in Hin.
  - rewrite run_cons_sent in Hin. apply elem_of_app in Hin as [Hin|Hin].
    + rewrite message_sent in Hin. case_bool_decide as Hty; [|by apply elem_of_nil in Hin].
      by destruct (proj1 (elem_of_broadcast _ _ _ _ _) Hin) as (_ & _ & Hc).
    + rewrite <- (message_clients srv ws data now). by apply IH.
Qed.

(** A run of messages none of which is an UPDATE (INIT and SYNC_INITIAL,
    adopted or not) sends nothing to anyone and leaves the stamp
    [lastUpdated] and the clients as they were. *)
Theorem relay_silent_without_update
    (srv : Relay.Server) (evs : list (nat * WSMessage * Z)) :
  Forall (λ ev, msg_type ev.1.2 ≠ UPDATE) evs →
  (Relay.run srv evs).2 = [] ∧
  Relay.lastUpdated (Relay.appState (Relay.run srv evs).1)
    = Relay.lastUpdated (Relay.appState srv) ∧
  Relay.clients (Relay.run srv evs).1 = Relay.clients srv.
Proof.
  intros Hevs. split; [|split; [|apply run_clients]].
  - revert srv. induction Hevs as [|[[ws data] now] evs Hty _ IH]; intros srv; [done|].
    rewrite run_cons_sent, IH, message_sent. simpl in Hty.
    by rewrite bool_decide_eq_false_2.
  - revert srv. induction Hevs as [|[[ws data] now] evs Hty _ IH]; intros srv; [done|].
    rewrite run_cons_state, IH. simpl in Hty. unfold Relay.message.
    rewrite (bool_decide_eq_false_2 _ Hty). simpl.
    by destruct (_ && _).
Qed.

Lemma relay_silent_without_update_witness :
  (Relay.run {| Relay.appState := Relay.initial 0;
                Relay.clients := [{| Relay.sock := 1; Relay.readyState := OPEN |};
                                  {| Relay.sock := 2; Relay.readyState := OPEN |}] |}
     [(1%nat, sync_initial_msg (Relay.payload_of Sample.mapped), 10);
      (2%nat, init_msg no_change, 20);
      (2%nat, sync_initial_msg Sample.empty_seed, 30)]).2 = [].
Proof.
  apply relay_silent_without_update.
  repeat constructor; discriminate.
Defined.

(** Every message the relay sends during a run of messages is the UPDATE
    of a payload that some peer sent as UPDATE in that run, goes to a
    client whose socket is open, and does not go to the peer that sent
    it. *)
Theorem relay_sends_only_received_updates
    (srv : Relay.Server) (evs : list (nat * WSMessage * Z)) (c : nat) (m : WSMessage) :
  (c, m) ∈ (Relay.run srv evs).2 →
  {| Relay.sock := c; Relay.readyState := OPEN |} ∈ Relay.clients srv ∧
  ∃ ws P now, (ws, update_msg P, now) ∈ evs ∧ m = update_msg P ∧ c ≠ ws.
Proof.
  intros Hin. split; [by eapply run_sent_to_open_client|].
  revert srv Hin. induction evs as [|[[ws data] now] evs IH]; intros srv Hin.
  - by apply elem_of_nil in Hin.
  - rewrite run_cons_sent in Hin. apply elem_of_app in Hin as [Hin|Hin].
    + rewrite message_sent in Hin. case_bool_decide as Hty; [|by apply elem_of_nil in Hin].
      destruct (proj1 (elem_of_broadcast _ _ _ _ _) Hin) as (-> & Hne & _).
      exists ws, (msg_payload data), now. split; [|done].
      destruct data as [ty P]. simpl in *. subst ty. apply elem_of_cons. by left.
    + destruct (IH _ Hin) as (ws' & P & now' & Hev & -> & Hne).
      exists ws', P, now'. split; [|done]. apply elem_of_cons. by right.
Qed.

Lemma relay_sends_only_received_updates_witness :
  {| Relay.sock := 2; Relay.readyState := OPEN |}
    ∈ [{| Relay.sock := 1; Relay.readyState := OPEN |};
       {| Relay.sock := 2; Relay.readyState := OPEN |}] ∧
  ∃ ws P now,
    (ws, update_msg P, now) ∈ [(1%nat, update_msg (only_zones [Sample.entrance]), 10)] ∧
    update_msg (only_zones [Sample.entrance]) = update_msg P ∧ 2%nat ≠ ws.
Proof.
  apply (relay_sends_only_received_updates
           {| Relay.appState := Sample.seeded;
              Relay.clients := [{| Relay.sock := 1; Relay.readyState := OPEN |};
                                {| Relay.sock := 2; Relay.readyState := OPEN |}] |}
           [(1%nat, update_msg (only_zones [Sample.entrance]), 10)]
           2 (update_msg (only_zones [Sample.entrance]))).
  vm_compute. apply list_elem_of_here.
Defined.

(** Once a socket has closed, no run of messages sends anything on it. *)
Theorem closed_socket_receives_nothing
    (srv : Relay.Server) (ws : nat) (evs : list (nat * WSMessage * Z)) (m : WSMessage) :
  (ws, m) ∉ (Relay.run (Relay.close srv ws) evs).2.
Proof.
  intros Hin. apply run_sent_to_open_client in Hin as Hc.
  unfold Relay.close in Hc. simpl in Hc.
  apply list_elem_of_filter in Hc as [Hne _]. by apply Hne.
Qed.

(** A new connection is sent the document as INIT and nobody else is sent
    anything; the document is not changed; and the UPDATE that any other
    peer sends next is forwarded to the newcomer. *)
Theorem newcomer_gets_init_then_updates
    (srv : Relay.Server) (ws ws' : nat) (P : AppStatePayload) (now : Z) :
  ws' ≠ ws →
  (Relay.connection srv ws).2 = [(ws, init_msg (Relay.payload_of (Relay.appState srv)))] ∧
  Relay.appState (Relay.connection srv ws).1 = Relay.appState srv ∧
  (ws, update_msg P) ∈ (Relay.message (Relay.connection srv ws).1 ws' (update_msg P) now).2.
Proof.
  intros Hne. repeat split.
  change (Relay.message (Relay.connection srv ws).1 ws' (update_msg P) now).2
    with (Relay.broadcast (Relay.clients srv ++ [{| Relay.sock := ws; Relay.readyState := OPEN |}])
            ws' P).
  apply elem_of_broadcast. repeat split; [done|].
  apply elem_of_app. right. apply list_elem_of_singleton. done.
Qed.

Lemma newcomer_gets_init_then_updates_witness :
  (3%nat, update_msg (only_spots [Sample.C01_occupied; Sample.M01]))
    ∈ (Relay.message
         (Relay.connection
            {| Relay.appState := Sample.seeded;
               Relay.clients := [{| Relay.sock := 1; Relay.readyState := OPEN |}] |} 3).1
         1 (update_msg (only_spots [Sample.C01_occupied; Sample.M01])) 6000).2.
Proof.
  apply (newcomer_gets_init_then_updates
           {| Relay.appState := Sample.seeded;
              Relay.clients := [{| Relay.sock := 1; Relay.readyState := OPEN |}] |}
           3 1 (only_spots [Sample.C01_occupied; Sample.M01]) 6000).
  lia.
Defined.

(** An UPDATE that carries [spots] decides whether the relay can still be
    seeded: after a non-empty [spots] the next SYNC_INITIAL changes
    nothing, whatever the document held before; after [spots: []] (an
    empty array is truthy, so it replaces the spots) the next
    SYNC_INITIAL is adopted key by key. *)
Theorem update_spots_gates_seeding
    (srv : Relay.Server) (ws1 ws2 : nat) (ss : list ParkingSpot)
    (P : AppStatePayload) (now1 now2 : Z) :
  (ss ≠ [] →
   (Relay.run srv [(ws1, update_msg (only_spots ss), now1);
                   (ws2, sync_initial_msg P, now2)]).1
     = (Relay.run srv [(ws1, update_msg (only_spots ss), now1)]).1) ∧
  (ss = [] →
   replaced (p_spots P) []
     (Relay.spots (Relay.appState
        (Relay.run srv [(ws1, update_msg (only_spots ss), now1);
                        (ws2, sync_initial_msg P, now2)]).1)) ∧
   replaced (p_spotLocations P) (Relay.spotLocations (Relay.appState srv))
     (Relay.spotLocations (Relay.appState
        (Relay.run srv [(ws1, update_msg (only_spots ss), now1);
                        (ws2, sync_initial_msg P, now2)]).1)) ∧
   replaced (p_zones P) (Relay.zones (Relay.appState srv))
     (Relay.zones (Relay.appState
        (Relay.run srv [(ws1, update_msg (only_spots ss), now1);
                        (ws2, sync_initial_msg P, now2)]).1)) ∧
   replaced (p_mapImage P) (Relay.mapImage (Relay.appState srv))
     (Relay.mapImage (Relay.appState
        (Relay.run srv [(ws1, update_msg (only_spots ss), now1);
                        (ws2, sync_initial_msg P, now2)]).1))).
Proof.
  split.
  - intros Hss. destruct ss as [|s ss]; [done|]. by destruct srv.
  - intros ->. destruct P as [a b c d]. simpl.
    by destruct a, b, c, d.
Qed.

Lemma update_spots_gates_seeding_witness :
  Relay.spots
    (Relay.appState
       (Relay.run {| Relay.appState := Sample.seeded; Relay.clients := [] |}
          [(1%nat, update_msg (only_spots []), 10);
           (2%nat, sync_initial_msg (Relay.payload_of Sample.mapped), 20)]).1)
  = [Sample.C01; Sample.M01].
Proof.
  apply (update_spots_gates_seeding
           {| Relay.appState := Sample.seeded; Relay.clients := [] |}
           1 2 [] (Relay.payload_of Sample.mapped) 10 20).
  reflexivity.
Defined.

(** The loop of the broadcast, one client at a time. *)
Lemma broadcast_cons (c' : nat) (r' : ReadyState) (cs : list Relay.WebSocket)
    (ws : nat) (P : AppStatePayload) :
  Relay.broadcast ({| Relay.sock := c'; Relay.readyState := r' |} :: cs) ws P
    = if bool_decide (c' ≠ ws ∧ r' = OPEN)
      then (c', update_msg P) :: Relay.broadcast cs ws P
      else Relay.broadcast cs ws P.
Proof. unfold Relay.broadcast. simpl. by destruct (bool_decide _). Qed.

(** A broadcast sends nothing to a socket that is not a client. *)
Lemma broadcast_to_stranger (cs : list Relay.WebSocket) (ws c : nat) (P : AppStatePayload) :
  c ∉ Relay.sock <$> cs →
  filter (λ x : nat * WSMessage, x.1 = c) (Relay.broadcast cs ws P) = [].
Proof.
  induction cs as [|[c' r'] cs IH]; intros Hc; [done|].
  rewrite fmap_cons in Hc. apply not_elem_of_cons in Hc as [Hc' Hc]. simpl in Hc'.
  rewrite broadcast_cons. destruct (bool_decide (c' ≠ ws ∧ r' = OPEN)); [|by apply IH].
  rewrite filter_cons_False by (simpl; congruence). by apply IH.
Qed.

(** What one broadcast sends to a given open client. *)
Lemma broadcast_to (cs : list Relay.WebSocket) (ws c : nat) (P : AppStatePayload) :
  NoDup (Relay.sock <$> cs) →
  {| Relay.sock := c; Relay.readyState := OPEN |} ∈ cs →
  filter (λ x, x.1 = c) (Relay.broadcast cs ws P)
    = if bool_decide (ws ≠ c) then [(c, update_msg P)] else [].
Proof.
  induction cs as [|[c' r'] cs IH]; intros Hnd Hin.
  - by apply elem_of_nil in Hin.
  - rewrite fmap_cons in Hnd. apply NoDup_cons in Hnd as [Hc' Hnd]. simpl in Hc'.
    rewrite broadcast_cons.
    apply elem_of_cons in Hin as [Heq|Hin].
    + injection Heq as <- <-.
      destruct (decide (ws = c)) as [->|Hne].
      * rewrite bool_decide_eq_false_2 by (by intros [? _]).
        rewrite bool_decide_eq_false_2 by (by intros ?).
        by apply broadcast_to_stranger.
      * rewrite bool_decide_eq_true_2 by (split; [congruence|done]).
        rewrite bool_decide_eq_true_2 by done.
        rewrite filter_cons_True by done. f_equal. by apply broadcast_to_stranger.
    + assert (c' ≠ c) as Hcc.
      { intros ->. apply Hc'. apply list_elem_of_fmap.
        by exists {| Relay.sock := c; Relay.readyState := OPEN |}. }
      destruct (bool_decide (c' ≠ ws ∧ r' = OPEN)); [|by apply IH].
      rewrite filter_cons_False by (simpl; congruence). by apply IH.
Qed.

(** The relay forwards in order. To a client whose socket is open, a run
    of UPDATEs sends exactly the payloads of the other peers, in the
    order in which the relay received them. *)
Theorem relay_forwards_in_order
    (srv : Relay.Server) (c : nat) (evs : list (nat * AppStatePayload * Z)) :
  NoDup (Relay.sock <$> Relay.clients srv) →
  {| Relay.sock := c; Relay.readyState := OPEN |} ∈ Relay.clients srv →
  filter (λ x, x.1 = c) (Relay.run srv (updates_at evs)).2
    = (λ ev, (c, update_msg ev.1.2)) <$> filter (λ ev, ev.1.1 ≠ c) evs.
Proof.
  revert srv. induction evs as [|[[ws P] now] evs IH]; intros srv Hnd Hin; [done|].
  change (updates_at ((ws, P, now) :: evs))
    with ((ws, update_msg P, now) :: updates_at evs).
  rewrite run_cons_sent, filter_app.
  rewrite IH by (by rewrite message_clients).
  rewrite message_sent. simpl.
  rewrite broadcast_to by done.
  destruct (decide (ws = c)) as [->|Hne].
  - rewrite bool_decide_eq_false_2 by (by intros ?).
    by rewrite filter_cons_False by (by intros ?).
  - rewrite bool_decide_eq_true_2 by done.
    by rewrite filter_cons_True by done.
Qed.

Lemma relay_forwards_in_order_witness :
  filter (λ x, x.1 = 2%nat)
    (Relay.run
       {| Relay.appState := Sample.seeded;
          Relay.clients := [{| Relay.sock := 1; Relay.readyState := OPEN |};
                            {| Relay.sock := 2; Relay.readyState := OPEN |};
                            {| Relay.sock := 3; Relay.readyState := OPEN |}] |}
       (updates_at [(1%nat, only_spots [Sample.C01_occupied; Sample.M01], 10);
                    (2%nat, only_zones [Sample.entrance], 20);
                    (3%nat, only_mapImage (Some Sample.floor_plan), 30)])).2
  = [(2%nat, update_msg (only_spots [Sample.C01_occupied; Sample.M01]));
     (2%nat, update_msg (only_mapImage (Some Sample.floor_plan)))].
Proof.
  apply (relay_forwards_in_order
           {| Relay.appState := Sample.seeded;
              Relay.clients := [{| Relay.sock := 1; Relay.readyState := OPEN |};
                                {| Relay.sock := 2; Relay.readyState := OPEN |};
                                {| Relay.sock := 3; Relay.readyState := OPEN |}] |}
           2
           [(1%nat, only_spots [Sample.C01_occupied; Sample.M01], 10);
            (2%nat, only_zones [Sample.entrance], 20);
            (3%nat, only_mapImage (Some Sample.floor_plan), 30)]).
  - apply (bool_decide_unpack _). vm_compute. exact I.
  - simpl. apply list_elem_of_further, list_elem_of_here.
Defined.

(** ** Seeding, end to end *)

(** A client that is sent the INIT of a relay without spots answers with
    one SYNC_INITIAL, and once the relay has handled it the relay's
    spots, locations, zones and image are those the client's WebSocket
    effect captured (a captured [null] image included); the relay keeps
    its stamp, forwards nothing, and the next client to connect is sent
    those four fields. *)
Theorem seed_round_trip
    (fits : gmap string App.Stored → bool) (env : App.Captured) (st : App.State)
    (srv : Relay.Server) (ws ws' : nat) (now : Z) :
  Relay.spots (Relay.appState srv) = [] →
  Relay.spots
    (relay_after srv ws now
       (App.onmessage fits env (init_msg (Relay.payload_of (Relay.appState srv))) st).2)
    = App.c_spots env ∧
  Relay.spotLocations
    (relay_after srv ws now
       (App.onmessage fits env (init_msg (Relay.payload_of (Relay.appState srv))) st).2)
    = App.c_spotLocations env ∧
  Relay.zones
    (relay_after srv ws now
       (App.onmessage fits env (init_msg (Relay.payload_of (Relay.appState srv))) st).2)
    = App.c_zones env ∧
  Relay.mapImage
    (relay_after srv ws now
       (App.onmessage fits env (init_msg (Relay.payload_of (Relay.appState srv))) st).2)
    = App.c_mapImage env ∧
  Relay.lastUpdated
    (relay_after srv ws now
       (App.onmessage fits env (init_msg (Relay.payload_of (Relay.appState srv))) st).2)
    = Relay.lastUpdated (Relay.appState srv) ∧
  (Relay.run srv
     (sent_by ws now
        (App.onmessage fits env (init_msg (Relay.payload_of (Relay.appState srv))) st).2)).2
    = [] ∧
  (Relay.connection
     (Relay.run srv
        (sent_by ws now
           (App.onmessage fits env (init_msg (Relay.payload_of (Relay.appState srv))) st).2)).1
     ws').2
    = [(ws', init_msg {| p_spots := Some (App.c_spots env);
                         p_spotLocations := Some (App.c_spotLocations env);
                         p_zones := Some (App.c_zones env);
                         p_mapImage := Some (App.c_mapImage env) |})].
Proof.
  intros Hempty. rewrite init_empty_sends_captured by done.
  unfold relay_after, sent_by. cbn [snd fmap list_fmap].
  destruct srv as [D cs]. simpl in Hempty.
  unfold Relay.run, Relay.message. simpl. rewrite Hempty. simpl. done.
Qed.

Lemma seed_round_trip_witness :
  Relay.mapImage
    (relay_after {| Relay.appState := Relay.initial 0; Relay.clients := [] |} 1 10
       (App.onmessage Sample.roomy Sample.mount_env
          (init_msg (Relay.payload_of (Relay.initial 0))) Sample.at_init).2)
  = Some Sample.floor_plan.
Proof.
  apply (seed_round_trip Sample.roomy Sample.mount_env Sample.at_init
           {| Relay.appState := Relay.initial 0; Relay.clients := [] |} 1 2 10).
  reflexivity.
Defined.

(** ** Toggling a spot *)

Lemma toggle_id (id : string) (now : Date) (s : ParkingSpot) :
  spot_id (App.toggle id now s) = spot_id s.
Proof. unfold App.toggle. by case_bool_decide. Qed.

Lemma toggle_type (id : string) (now : Date) (s : ParkingSpot) :
  spot_type (App.toggle id now s) = spot_type s.
Proof. unfold App.toggle. by case_bool_decide. Qed.

Lemma toggle_other (id : string) (now : Date) (s : ParkingSpot) :
  spot_id s ≠ id → App.toggle id now s = s.
Proof. intros Hne. unfold App.toggle. by rewrite bool_decide_eq_false_2. Qed.

Lemma toggle_toggle_status (id : string) (now1 now2 : Date) (s : ParkingSpot) :
  spot_status (App.toggle id now2 (App.toggle id now1 s)) = spot_status s.
Proof.
  destruct (decide (spot_id s = id)) as [Heq|Hne];
    [|by rewrite (toggle_other id now1 s Hne), (toggle_other id now2 s Hne)].
  destruct s as [i t status u]. simpl in Heq. subst i.
  unfold App.toggle. simpl. rewrite !(bool_decide_eq_true_2 (id = id) eq_refl). simpl.
  by destruct status.
Qed.

(** Toggling an id that no spot of the list has changes no spot. *)
Lemma toggle_absent (id : string) (now : Date) (l : list ParkingSpot) :
  id ∉ spot_id <$> l → App.toggle id now <$> l = l.
Proof.
  induction l as [|s l IH]; [done|]. rewrite fmap_cons.
  intros [Hs Hl]%not_elem_of_cons. rewrite !fmap_cons, IH by done.
  by rewrite toggle_other.
Qed.

(** [setSpots] sets the spots and writes [localStorage]; it leaves the
    other variables. *)
Lemma setSpots_fields
    (fits : gmap string App.Stored → bool) (v : list ParkingSpot) (st : App.State) :
  App.userRole (App.setSpots fits v st) = App.userRole st ∧
  App.isConnected (App.setSpots fits v st) = App.isConnected st ∧
  App.socketRef (App.setSpots fits v st) = App.socketRef st ∧
  App.spots (App.setSpots fits v st) = v ∧
  App.spotLocations (App.setSpots fits v st) = App.spotLocations st ∧
  App.zones (App.setSpots fits v st) = App.zones st ∧
  App.mapImage (App.setSpots fits v st) = App.mapImage st.
Proof.
  unfold App.setSpots, App.persist_spots. by destruct (App.setItem _ _ _ _).
Qed.

(** The spots after a toggle by somebody who is not a guest. *)
Lemma handleToggleSpot_spots
    (fits : gmap string App.Stored → bool) (id : string) (now : Date) (st : App.State) :
  App.isGuest st = false →
  App.spots (App.handleToggleSpot fits id now st).1 = App.toggle id now <$> App.spots st.
Proof.
  intros Hguest. unfold App.handleToggleSpot. rewrite Hguest. simpl.
  apply persist_spots_fields.
Qed.

(** A toggle whose write of the new spots the browser accepts keeps the
    list of spots in shape: the same ids and the same vehicle types in
    the same order, and every spot with another id as it was. Toggling
    an id that no spot has leaves the spots as they are, and the UPDATE
    that carries them is sent all the same when the socket is open. *)
Theorem toggle_keeps_shape
    (fits : gmap string App.Stored → bool) (id : string) (now : Date) (st : App.State) :
  App.isGuest st = false →
  App.spots_write_accepted fits (App.toggle id now <$> App.spots st) st = true →
  spot_id <$> App.spots (App.handleToggleSpot fits id now st).1
    = spot_id <$> App.spots st ∧
  spot_type <$> App.spots (App.handleToggleSpot fits id now st).1
    = spot_type <$> App.spots st ∧
  (∀ i s, App.spots st !! i = Some s → spot_id s ≠ id →
          App.spots (App.handleToggleSpot fits id now st).1 !! i = Some s) ∧
  (id ∉ (spot_id <$> App.spots st) →
   App.spots (App.handleToggleSpot fits id now st).1 = App.spots st ∧
   (App.socketRef st = Some OPEN →
    (App.handleToggleSpot fits id now st).2 = [update_msg (only_spots (App.spots st))])).
Proof.
  intros Hguest _. rewrite handleToggleSpot_spots by done. repeat split.
  - rewrite <- list_fmap_compose. apply list_fmap_ext. intros ? s ?. apply toggle_id.
  - rewrite <- list_fmap_compose. apply list_fmap_ext. intros ? s ?. apply toggle_type.
  - intros i s Hi Hne. rewrite list_lookup_fmap, Hi. simpl. by rewrite toggle_other.
  - by apply toggle_absent.
  - intros Hopen. unfold App.handleToggleSpot, App.broadcastUpdate.
    rewrite Hguest, Hopen. simpl. by rewrite toggle_absent.
Qed.

Lemma toggle_keeps_shape_witness :
  spot_id <$> App.spots (App.handleToggleSpot Sample.roomy "M-01" 2000 Sample.admin_online).1
    = ["C-01"; "M-01"].
Proof.
  apply (toggle_keeps_shape Sample.roomy "M-01" 2000 Sample.admin_online);
    reflexivity.
Defined.

(** Toggling the same id twice, the browser accepting both writes of
    the new spots, gives every spot its occupancy back; the spots with
    that id carry the instant of the second toggle. *)
Theorem toggle_twice_restores_status
    (fits : gmap string App.Stored → bool) (id : string) (now1 now2 : Date)
    (st : App.State) :
  App.isGuest st = false →
  App.spots_write_accepted fits (App.toggle id now1 <$> App.spots st) st = true →
  App.spots_write_accepted fits
    (App.toggle id now2 <$> (App.toggle id now1 <$> App.spots st))
    (App.handleToggleSpot fits id now1 st).1 = true →
  spot_status <$>
    App.spots (App.handleToggleSpot fits id now2
                 (App.handleToggleSpot fits id now1 st).1).1
    = spot_status <$> App.spots st ∧
  (∀ s, s ∈ App.spots (App.handleToggleSpot fits id now2
                         (App.handleToggleSpot fits id now1 st).1).1 →
        spot_id s = id → spot_lastUpdated s = Some now2).
Proof.
  intros Hguest _ _.
  assert (Hguest1 : App.isGuest (App.handleToggleSpot fits id now1 st).1 = false).
  { unfold App.handleToggleSpot. rewrite Hguest. simpl.
    unfold App.isGuest in *.
    by destruct (setSpots_fields fits (App.toggle id now1 <$> App.spots st) st)
      as (-> & _). }
  rewrite !handleToggleSpot_spots by done. split.
  - rewrite <- !list_fmap_compose. apply list_fmap_ext. intros _ s _. simpl.
    apply toggle_toggle_status.
  - intros s Hs Hid. rewrite <- list_fmap_compose in Hs.
    apply list_elem_of_fmap in Hs as (s0 & -> & _). simpl in *.
    rewrite !toggle_id in Hid. unfold App.toggle at 1.
    rewrite toggle_id. by rewrite bool_decide_eq_true_2.
Qed.

Lemma toggle_twice_restores_status_witness :
  spot_status <$>
    App.spots (App.handleToggleSpot Sample.roomy "C-01" 3000
                 (App.handleToggleSpot Sample.roomy "C-01" 2000 Sample.admin_online).1).1
    = [FREE; FREE].
Proof.
  apply (toggle_twice_restores_status Sample.roomy "C-01" 2000 3000 Sample.admin_online);
    reflexivity.
Defined.

(** ** The statistics *)

(** The counters of a list are the sums of the counters of its parts. *)
Lemma stats_app (t : VehicleType) (l1 l2 : list ParkingSpot) :
  total t (App.stats (l1 ++ l2)) = (total t (App.stats l1) + total t (App.stats l2))%nat ∧
  occupied t (App.stats (l1 ++ l2))
    = (occupied t (App.stats l1) + occupied t (App.stats l2))%nat.
Proof. destruct t; simpl; by rewrite !filter_app, !length_app. Qed.

(** The counters of one spot. *)
Lemma stats_singleton (t : VehicleType) (s : ParkingSpot) :
  total t (App.stats [s]) = (if decide (spot_type s = t) then 1 else 0)%nat ∧
  occupied t (App.stats [s])
    = (if decide (spot_type s = t ∧ spot_status s = OCCUPIED) then 1 else 0)%nat.
Proof.
  destruct s as [i ty status u]. by destruct t, ty, status.
Qed.

(** Every spot is counted once, as a car or as a motorcycle; the occupied
    spots of a type are among the spots of that type; and the two occupied
    counters add up to the number of occupied spots. *)
Theorem stats_count_every_spot (spots : list ParkingSpot) :
  (totalCars (App.stats spots) + totalMotos (App.stats spots))%nat = length spots ∧
  (occupiedCars (App.stats spots) ≤ totalCars (App.stats spots))%nat ∧
  (occupiedMotos (App.stats spots) ≤ totalMotos (App.stats spots))%nat ∧
  (occupiedCars (App.stats spots) + occupiedMotos (App.stats spots))%nat
    = length (filter (λ s, spot_status s = OCCUPIED) spots).
Proof.
  induction spots as [|s spots IH]; [done|].
  change (s :: spots) with ([s] ++ spots).
  destruct (stats_app CAR [s] spots) as [Htc Hoc].
  destruct (stats_app MOTORCYCLE [s] spots) as [Htm Hom].
  cbn [total occupied] in Htc, Hoc, Htm, Hom.
  rewrite Htc, Hoc, Htm, Hom, filter_app, !length_app.
  destruct IH as (IH1 & IH2 & IH3 & IH4).
  set (p := App.stats spots) in *. set (n := length spots) in *.
  set (k := length (filter (λ s, spot_status s = OCCUPIED) spots)) in *.
  clearbody p n k.
  destruct s as [i ty status u]. destruct ty, status; simpl; lia.
Qed.

(** With pairwise distinct ids, toggling the id of a spot, the browser
    accepting the write of the new spots, moves exactly one counter by
    one: the totals stay, the occupied counter of the other vehicle type
    stays, and the occupied counter of the spot's type goes up by one
    when the spot was free and down by one when it was occupied. *)
Theorem toggle_moves_one_counter
    (fits : gmap string App.Stored → bool) (id : string) (now : Date)
    (st : App.State) (s : ParkingSpot) :
  App.isGuest st = false →
  App.spots_write_accepted fits (App.toggle id now <$> App.spots st) st = true →
  NoDup (spot_id <$> App.spots st) →
  s ∈ App.spots st →
  spot_id s = id →
  (∀ t, total t (App.stats (App.spots (App.handleToggleSpot fits id now st).1))
        = total t (App.stats (App.spots st))) ∧
  (∀ t, t ≠ spot_type s →
        occupied t (App.stats (App.spots (App.handleToggleSpot fits id now st).1))
        = occupied t (App.stats (App.spots st))) ∧
  (spot_status s = FREE →
   occupied (spot_type s) (App.stats (App.spots (App.handleToggleSpot fits id now st).1))
     = S (occupied (spot_type s) (App.stats (App.spots st)))) ∧
  (spot_status s = OCCUPIED →
   S (occupied (spot_type s) (App.stats (App.spots (App.handleToggleSpot fits id now st).1)))
     = occupied (spot_type s) (App.stats (App.spots st))).
Proof.
  intros Hguest _ Hnd Hin Hid. rewrite handleToggleSpot_spots by done.
  apply list_elem_of_split in Hin as (l1 & l2 & Hsplit). rewrite Hsplit in *.
  rewrite fmap_app, fmap_cons in Hnd.
  apply NoDup_app in Hnd as (_ & Hl1 & Hnd). apply NoDup_cons in Hnd as [Hl2 _].
  assert (id ∉ spot_id <$> l1) as Hn1.
  { intros Hi. apply (Hl1 _ Hi). rewrite Hid. apply list_elem_of_here. }
  rewrite Hid in Hl2.
  rewrite fmap_app, fmap_cons, !toggle_absent by done.
  change (l1 ++ ?x :: l2) with (l1 ++ [x] ++ l2).
  assert (Hcount : ∀ t x,
    total t (App.stats (l1 ++ [x] ++ l2))
      = (total t (App.stats l1) + (total t (App.stats [x]) + total t (App.stats l2)))%nat ∧
    occupied t (App.stats (l1 ++ [x] ++ l2))
      = (occupied t (App.stats l1)
         + (occupied t (App.stats [x]) + occupied t (App.stats l2)))%nat).
  { intros t x. destruct (stats_app t l1 ([x] ++ l2)) as [-> ->].
    by destruct (stats_app t [x] l2) as [-> ->]. }
  assert (Htog : App.toggle id now s
            = {| spot_id := spot_id s; spot_type := spot_type s;
                 spot_status := if bool_decide (spot_status s = FREE) then OCCUPIED else FREE;
                 spot_lastUpdated := Some now |}).
  { unfold App.toggle. by rewrite bool_decide_eq_true_2. }
  rewrite Htog. clear Htog.
  repeat split.
  - intros t. destruct (Hcount t s) as [-> _].
    destruct (Hcount t {| spot_id := spot_id s; spot_type := spot_type s;
                 spot_status := if bool_decide (spot_status s = FREE) then OCCUPIED else FREE;
                 spot_lastUpdated := Some now |}) as [-> _].
    destruct s as [i ty status u]. by destruct t, ty.
  - intros t Ht. destruct (Hcount t s) as [_ ->].
    destruct (Hcount t {| spot_id := spot_id s; spot_type := spot_type s;
                 spot_status := if bool_decide (spot_status s = FREE) then OCCUPIED else FREE;
                 spot_lastUpdated := Some now |}) as [_ ->].
    destruct s as [i ty status u]. simpl in Ht. by destruct t, ty, status.
  - intros Hfree. destruct (Hcount (spot_type s) s) as [_ ->].
    destruct (Hcount (spot_type s) {| spot_id := spot_id s; spot_type := spot_type s;
                 spot_status := if bool_decide (spot_status s = FREE) then OCCUPIED else FREE;
                 spot_lastUpdated := Some now |}) as [_ ->].
    destruct s as [i ty status u]. simpl in *. subst status. destruct ty; simpl; lia.
  - intros Hocc. destruct (Hcount (spot_type s) s) as [_ ->].
    destruct (Hcount (spot_type s) {| spot_id := spot_id s; spot_type := spot_type s;
                 spot_status := if bool_decide (spot_status s = FREE) then OCCUPIED else FREE;
                 spot_lastUpdated := Some now |}) as [_ ->].
    destruct s as [i ty status u]. simpl in *. subst status. destruct ty; simpl; lia.
Qed.

Lemma toggle_moves_one_counter_witness :
  occupiedCars
    (App.stats (App.spots (App.handleToggleSpot Sample.roomy "C-01" 2000 Sample.admin_online).1))
  = S (occupiedCars (App.stats (App.spots Sample.admin_online))).
Proof.
  apply (toggle_moves_one_counter Sample.roomy "C-01" 2000 Sample.admin_online Sample.C01).
  - reflexivity.
  - reflexivity.
  - apply (bool_decide_unpack _). vm_compute. exact I.
  - apply list_elem_of_here.
  - reflexivity.
  - reflexivity.
Defined.

(** ** Placing and removing a spot on the map *)

(** Placing a spot whose id is not "__proto__" records its location and
    touches no other entry; the handler does not look at [spots], so any
    such id can be placed. In the map view the spots with that id leave
    the list of unmapped spots and the rest of the list stays. *)
Theorem place_spot_on_map (id : string) (l : SpotLocation) (st : App.State) :
  App.isGuest st = false →
  id ≠ "__proto__" →
  App.spotLocations (App.handleUpdateLocation id (Some l) st).1 !! id = Some l ∧
  (∀ j, j ≠ id →
        App.spotLocations (App.handleUpdateLocation id (Some l) st).1 !! j
        = App.spotLocations st !! j) ∧
  App.spots (App.handleUpdateLocation id (Some l) st).1 = App.spots st ∧
  MapView.unmappedSpots (App.spots (App.handleUpdateLocation id (Some l) st).1)
    (App.spotLocations (App.handleUpdateLocation id (Some l) st).1)
    = filter (λ s, spot_id s ≠ id)
        (MapView.unmappedSpots (App.spots st) (App.spotLocations st)).
Proof.
  intros Hguest _. unfold App.handleUpdateLocation. rewrite Hguest. simpl.
  split; [apply lookup_insert_eq|].
  split; [intros j Hj; by apply lookup_insert_ne|].
  split; [done|].
  unfold MapView.unmappedSpots. rewrite list_filter_filter.
  apply list_filter_iff. intros s.
  destruct (decide (spot_id s = id)) as [->|Hne].
  - rewrite lookup_insert_eq. split; [by intros [? _] | by intros [? _]].
  - rewrite lookup_insert_ne by done. split; [by split | by intros [_ ?]].
Qed.

Lemma place_spot_on_map_witness :
  MapView.unmappedSpots
    (App.spots (App.handleUpdateLocation "C-01" (Some Sample.centre) Sample.admin_online).1)
    (App.spotLocations
       (App.handleUpdateLocation "C-01" (Some Sample.centre) Sample.admin_online).1)
  = [Sample.M01].
Proof.
  apply (place_spot_on_map "C-01" Sample.centre Sample.admin_online);
    [reflexivity | discriminate].
Defined.

(** Removing a spot from the map deletes its entry and no other. Removing
    a spot that was just placed, and had no location before, gives the
    locations back as they were; removing a spot that has no location
    leaves the locations as they are, and the UPDATE that carries them is
    sent all the same when the socket is open. *)
Theorem remove_spot_from_map (id : string) (l : SpotLocation) (st : App.State) :
  App.isGuest st = false →
  App.spotLocations (App.handleUpdateLocation id None st).1 !! id = None ∧
  (∀ j, j ≠ id →
        App.spotLocations (App.handleUpdateLocation id None st).1 !! j
        = App.spotLocations st !! j) ∧
  (App.spotLocations st !! id = None →
   App.spotLocations
     (App.handleUpdateLocation id None (App.handleUpdateLocation id (Some l) st).1).1
     = App.spotLocations st ∧
   App.spotLocations (App.handleUpdateLocation id None st).1 = App.spotLocations st ∧
   (App.socketRef st = Some OPEN →
    (App.handleUpdateLocation id None st).2
      = [update_msg (only_spotLocations (App.spotLocations st))])).
Proof.
  intros Hguest. unfold App.handleUpdateLocation at 1 2 3 5 6. rewrite Hguest. simpl.
  repeat split.
  - apply lookup_delete_eq.
  - intros j Hj. by apply lookup_delete_ne.
  - unfold App.handleUpdateLocation. rewrite Hguest. simpl.
    unfold App.isGuest in *. simpl. rewrite Hguest. simpl.
    rewrite delete_insert_eq. by apply delete_id.
  - by apply delete_id.
  - intros Hopen. unfold App.broadcastUpdate. rewrite Hopen. by rewrite delete_id.
Qed.

Lemma remove_spot_from_map_witness :
  App.spotLocations
    (App.handleUpdateLocation "C-01" None
       (App.handleUpdateLocation "C-01" (Some Sample.centre) Sample.admin_online).1).1
  = App.spotLocations Sample.admin_online.
Proof.
  apply (remove_spot_from_map "C-01" Sample.centre Sample.admin_online);
    reflexivity.
Defined.

(** ** Zones *)

(** Deleting a zone removes every zone with that id and keeps the others
    in their order; deleting an id that no zone has leaves the zones as
    they are. Adding a zone whose id is new and deleting that id gives
    the zones back. *)
Theorem add_then_delete_zone (zone : MapZone) (id : string) (st : App.State) :
  App.isGuest st = false →
  (id ∉ zone_id <$> App.zones (App.handleDeleteZone id st).1) ∧
  (∀ z, z ∈ App.zones st → zone_id z ≠ id → z ∈ App.zones (App.handleDeleteZone id st).1) ∧
  (id ∉ (zone_id <$> App.zones st) →
   App.zones (App.handleDeleteZone id st).1 = App.zones st) ∧
  (zone_id zone ∉ (zone_id <$> App.zones st) →
   App.zones (App.handleDeleteZone (zone_id zone) (App.handleAddZone zone st).1).1
     = App.zones st).
Proof.
  intros Hguest.
  assert (Hkeep : ∀ (i : string) (l : list MapZone),
            i ∉ zone_id <$> l → filter (λ z, zone_id z ≠ i) l = l).
  { intros i l. induction l as [|z l IH]; [done|]. rewrite fmap_cons.
    intros [Hz Hl]%not_elem_of_cons. rewrite filter_cons_True by done.
    by rewrite IH. }
  unfold App.handleDeleteZone at 1 2 3. rewrite Hguest. simpl. repeat split.
  - intros Hin. apply list_elem_of_fmap in Hin as (z & Hid & Hz).
    apply list_elem_of_filter in Hz as [Hne _]. by apply Hne.
  - intros z Hz Hne. by apply list_elem_of_filter.
  - apply Hkeep.
  - intros Hnew. unfold App.handleAddZone. rewrite Hguest. simpl.
    unfold App.handleDeleteZone, App.isGuest in *. simpl. rewrite Hguest. simpl.
    rewrite filter_app, Hkeep by done.
    rewrite filter_cons_False by (by intros ?). apply app_nil_r.
Qed.

Lemma add_then_delete_zone_witness :
  App.zones
    (App.handleDeleteZone "z1" (App.handleAddZone Sample.entrance Sample.admin_online).1).1
  = [].
Proof.
  apply (add_then_delete_zone Sample.entrance "z1" Sample.admin_online).
  - reflexivity.
  - apply (bool_decide_unpack _). vm_compute. exact I.
Defined.



(** ** The quick save *)

(** The quick save returns [true] exactly when the user is not a guest
    and the browser accepts both writes. When it returns [false] nothing
    is sent; when only the second write is refused, the locations have
    been stored all the same. It never changes the four synchronised
    fields. *)
Theorem quick_save_outcomes
    (fits : gmap string App.Stored → bool) (st : App.State) :
  ((App.handleQuickSaveLayout fits st).1.1 = true ↔
   App.isGuest st = false ∧
   fits (<[App.STORAGE_KEYS.LOCATIONS := App.json_locations (App.spotLocations st)]>
           (App.localStorage st)) = true ∧
   fits (<[App.STORAGE_KEYS.ZONES := App.json_zones (App.zones st)]>
           (<[App.STORAGE_KEYS.LOCATIONS := App.json_locations (App.spotLocations st)]>
              (App.localStorage st))) = true) ∧
  ((App.handleQuickSaveLayout fits st).1.1 = false →
   (App.handleQuickSaveLayout fits st).2 = []) ∧
  (App.isGuest st = false →
   fits (<[App.STORAGE_KEYS.LOCATIONS := App.json_locations (App.spotLocations st)]>
           (App.localStorage st)) = true →
   App.localStorage (App.handleQuickSaveLayout fits st).1.2 !! App.STORAGE_KEYS.LOCATIONS
     = Some (App.json_locations (App.spotLocations st))) ∧
  App.spots (App.handleQuickSaveLayout fits st).1.2 = App.spots st ∧
  App.spotLocations (App.handleQuickSaveLayout fits st).1.2 = App.spotLocations st ∧
  App.zones (App.handleQuickSaveLayout fits st).1.2 = App.zones st ∧
  App.mapImage (App.handleQuickSaveLayout fits st).1.2 = App.mapImage st.
Proof.
  unfold App.handleQuickSaveLayout, App.setItem.
  destruct (App.isGuest st); simpl.
  { repeat split; try done. by intros (? & _). }
  destruct (fits (<[App.STORAGE_KEYS.LOCATIONS:=_]> _)) eqn:E1; simpl.
  2:{ repeat split; try done. by intros (_ & ? & _). }
  destruct (fits (<[App.STORAGE_KEYS.ZONES:=_]> _)) eqn:E2; simpl.
  - repeat split; try done. intros _ _.
    rewrite lookup_insert_ne by done. apply lookup_insert_eq.
  - repeat split; try done; try (by intros (_ & _ & ?)).
    intros _ _. apply lookup_insert_eq.
Qed.

Lemma quick_save_outcomes_witness :
  (App.handleQuickSaveLayout Sample.full Sample.admin_online).2 = [] ∧
  (App.handleQuickSaveLayout Sample.roomy Sample.admin_online).1.1 = true.
Proof.
  split.
  - apply (quick_save_outcomes Sample.full Sample.admin_online). reflexivity.
  - apply (quick_save_outcomes Sample.roomy Sample.admin_online). by repeat split.
Defined.

(** ** What a handler sends *)

(** While the socket is not open, none of the handlers sends anything;
    the change is made locally all the same (here: the zone is added). *)
Theorem offline_handlers_send_nothing
    (fits : gmap string App.Stored → bool) (st : App.State) :
  App.socketRef st ≠ Some OPEN →
  (∀ id now, (App.handleToggleSpot fits id now st).2 = []) ∧
  (∀ id location, (App.handleUpdateLocation id location st).2 = []) ∧
  (∀ zone, (App.handleAddZone zone st).2 = []) ∧
  (∀ id updates, (App.handleUpdateZone id updates st).2 = []) ∧
  (∀ id, (App.handleDeleteZone id st).2 = []) ∧
  (∀ file, (App.handleImageUpload fits file st).2 = []) ∧
  (App.handleQuickSaveLayout fits st).2 = [] ∧
  (∀ locations loadedZones,
     (App.handleLoadLayoutSnapshot fits locations loadedZones st).1.2 = []) ∧
  (∀ zone, App.isGuest st = false →
           App.zones (App.handleAddZone zone st).1 = App.zones st ++ [zone]).
Proof.
  intros Hsock.
  assert (Hb : ∀ P, App.broadcastUpdate P st = []).
  { intros P. unfold App.broadcastUpdate. destruct (App.socketRef st) as [[]|]; done. }
  unfold App.handleToggleSpot, App.handleUpdateLocation, App.handleAddZone,
    App.handleUpdateZone, App.handleDeleteZone, App.handleImageUpload, App.onloadend,
    App.handleQuickSaveLayout, App.handleLoadLayoutSnapshot.
  destruct (App.isGuest st); simpl; repeat split; intros;
    repeat (destruct (App.setItem _ _ _ _); simpl); rewrite ?Hb; done.
Qed.

Lemma offline_handlers_send_nothing_witness :
  (App.handleToggleSpot Sample.roomy "C-01" 2000 Sample.admin_offline).2 = [] ∧
  App.spots (App.handleToggleSpot Sample.roomy "C-01" 2000 Sample.admin_offline).1
    = [Sample.C01_occupied; Sample.M01].
Proof.
  split; [|reflexivity].
  apply (offline_handlers_send_nothing Sample.roomy Sample.admin_offline). discriminate.
Defined.
(** While the socket is open, a change made by somebody who is not a
    guest is sent as one UPDATE that carries the changed field, as it is
    in the local state after the change, and no other key. *)
Lemma online_handlers_out
    (fits : gmap string App.Stored → bool) (st : App.State) :
  App.isGuest st = false →
  App.socketRef st = Some OPEN →
  (∀ id now,
     (App.handleToggleSpot fits id now st).2
     = [update_msg (only_spots (App.spots (App.handleToggleSpot fits id now st).1))]) ∧
  (∀ id location,
     (App.handleUpdateLocation id location st).2
     = [update_msg (only_spotLocations
                      (App.spotLocations (App.handleUpdateLocation id location st).1))]) ∧
  (∀ zone,
     (App.handleAddZone zone st).2
     = [update_msg (only_zones (App.zones (App.handleAddZone zone st).1))]) ∧
  (∀ id updates,
     (App.handleUpdateZone id updates st).2
     = [update_msg (only_zones (App.zones (App.handleUpdateZone id updates st).1))]) ∧
  (∀ id,
     (App.handleDeleteZone id st).2
     = [update_msg (only_zones (App.zones (App.handleDeleteZone id st).1))]).
Proof.
  intros Hguest Hopen.
  unfold App.handleToggleSpot, App.handleUpdateLocation, App.handleAddZone,
    App.handleUpdateZone, App.handleDeleteZone, App.broadcastUpdate.
  rewrite Hguest, Hopen. simpl. repeat split.
  intros id now.
  by destruct (setSpots_fields fits (App.toggle id now <$> App.spots st) st)
    as (_ & _ & _ & -> & _).
Qed.

(** ** From one client to another through the relay *)

(** One UPDATE sent by the client on [ws]: the relay merges it, and
    forwards it, alone, to an open peer. *)
Lemma one_update_through_relay
    (srv : Relay.Server) (ws c : nat) (now : Z) (P : AppStatePayload) :
  NoDup (Relay.sock <$> Relay.clients srv) →
  {| Relay.sock := c; Relay.readyState := OPEN |} ∈ Relay.clients srv →
  c ≠ ws →
  relay_after srv ws now [update_msg P] = Relay.merge_update (Relay.appState srv) P now ∧
  delivered_to c (Relay.run srv (sent_by ws now [update_msg P])).2 = [update_msg P].
Proof.
  intros Hnd Hc Hne. unfold relay_after, delivered_to, sent_by. split; [done|].
  change ((λ m, (ws, m, now)) <$> [update_msg P]) with [(ws, update_msg P, now)].
  rewrite run_cons_sent, message_sent. simpl. rewrite app_nil_r.
  rewrite broadcast_to by done. by rewrite bool_decide_eq_true_2.
Qed.

(** The same, up to the state of the peer. *)
Lemma one_update_reaches_peer
    (fits : gmap string App.Stored → bool) (env : App.Captured)
    (srv : Relay.Server) (ws c : nat) (now : Z) (P : AppStatePayload) (peer : App.State) :
  NoDup (Relay.sock <$> Relay.clients srv) →
  {| Relay.sock := c; Relay.readyState := OPEN |} ∈ Relay.clients srv →
  c ≠ ws →
  peer_after fits env srv ws c now [update_msg P] peer
    = (App.onmessage fits env (update_msg P) peer).1.
Proof.
  intros Hnd Hc Hne. unfold peer_after.
  destruct (one_update_through_relay srv ws c now P Hnd Hc Hne) as [_ ->].
  by rewrite receive_cons_state.
Qed.

(** The same for a peer that revives what it receives and whose
    component a refused write unmounts. *)
Lemma one_update_reaches_mounted_peer
    (fits : gmap string App.Stored → bool) (env : App.Captured)
    (srv : Relay.Server) (ws c : nat) (now : Z) (P : AppStatePayload) (peer : App.State) :
  NoDup (Relay.sock <$> Relay.clients srv) →
  {| Relay.sock := c; Relay.readyState := OPEN |} ∈ Relay.clients srv →
  c ≠ ws →
  peer_mounted_after fits env srv ws c now [update_msg P] peer
    = fst <$> App.ws_onmessage fits env (update_msg P) peer.
Proof.
  intros Hnd Hc Hne. unfold peer_mounted_after.
  destruct (one_update_through_relay srv ws c now P Hnd Hc Hne) as [_ ->].
  cbn [App.ws_receive].
  by destruct (App.ws_onmessage fits env (update_msg P) peer) as [[st1 out1]|].
Qed.

(** A list of spots is parsed as it was serialised. *)
Lemma wire_spots (v : list ParkingSpot) :
  mapM Wire.message [update_msg (only_spots v)] = Some [update_msg (only_spots v)].
Proof. reflexivity. Qed.

Section OneField.

Context (fits : gmap string App.Stored → bool) (env : App.Captured)
  (srv : Relay.Server) (ws c : nat) (now : Z) (peer : App.State).
Hypothesis Hnd : NoDup (Relay.sock <$> Relay.clients srv).
Hypothesis Hc : {| Relay.sock := c; Relay.readyState := OPEN |} ∈ Relay.clients srv.
Hypothesis Hne : c ≠ ws.

Lemma spots_through_relay (v : list ParkingSpot) :
  App.spots_write_accepted fits v peer = true →
  Relay.spots (relay_after srv ws now [update_msg (only_spots v)]) = v ∧
  App.spots <$> peer_mounted_after fits env srv ws c now [update_msg (only_spots v)] peer
    = Some v.
Proof.
  intros Hacc. rewrite one_update_reaches_mounted_peer by done.
  destruct (one_update_through_relay srv ws c now (only_spots v) Hnd Hc Hne) as [-> _].
  split; [done|].
  rewrite ws_onmessage_accepted; [|done|by intros ss [= <-]]. cbn [fmap option_fmap option_map].
  by destruct (onmessage_update_fields fits env (only_spots v) peer) as (-> & _).
Qed.

Lemma spotLocations_through_relay (v : gmap string SpotLocation) :
  v !! "lastUpdated" = None →
  Relay.spotLocations (relay_after srv ws now [update_msg (only_spotLocations v)]) = v ∧
  App.spotLocations
    <$> peer_mounted_after fits env srv ws c now [update_msg (only_spotLocations v)] peer
    = Some v.
Proof.
  intros Hkey. rewrite one_update_reaches_mounted_peer by done.
  destruct (one_update_through_relay srv ws c now (only_spotLocations v) Hnd Hc Hne)
    as [-> _].
  split; [done|].
  rewrite ws_onmessage_accepted; [|unfold App.revive; simpl; by rewrite bool_decide_eq_true_2
                                  |by intros ss [=]].
  cbn [fmap option_fmap option_map].
  by destruct (onmessage_update_fields fits env (only_spotLocations v) peer)
    as (_ & -> & _).
Qed.

Lemma zones_through_relay (v : list MapZone) :
  Relay.zones (relay_after srv ws now [update_msg (only_zones v)]) = v ∧
  App.zones <$> peer_mounted_after fits env srv ws c now [update_msg (only_zones v)] peer
    = Some v.
Proof.
  rewrite one_update_reaches_mounted_peer by done.
  destruct (one_update_through_relay srv ws c now (only_zones v) Hnd Hc Hne) as [-> _].
  split; [done|].
  rewrite ws_onmessage_accepted; [|done|by intros ss [=]]. cbn [fmap option_fmap option_map].
  by destruct (onmessage_update_fields fits env (only_zones v) peer) as (_ & _ & -> & _).
Qed.

End OneField.

(** A change made by somebody who is not a guest, on an open socket,
    reaches the relay and every other open peer, provided the relay
    parses what was sent as it was sent: every coordinate a finite
    number other than [-0].
    - After a toggle whose write the sender's browser accepts, the relay
      holds the sender's spots, which the wire never alters; so does a
      peer whose browser accepts the write of them.
    - After a spot whose id is not "__proto__" is placed, or after a
      spot is removed, the relay holds the sender's locations; so does
      the peer when no location is under the id "lastUpdated".
    - After a zone is added, updated or deleted, the relay and the peer
      hold the sender's zones. *)
Theorem local_change_reaches_relay_and_peers
    (fits : gmap string App.Stored → bool) (env : App.Captured)
    (srv : Relay.Server) (ws c : nat) (now : Z) (st peer : App.State) :
  App.isGuest st = false →
  App.socketRef st = Some OPEN →
  NoDup (Relay.sock <$> Relay.clients srv) →
  {| Relay.sock := c; Relay.readyState := OPEN |} ∈ Relay.clients srv →
  c ≠ ws →
  (∀ id t,
     App.spots_write_accepted fits (App.toggle id t <$> App.spots st) st = true →
     App.spots_write_accepted fits (App.toggle id t <$> App.spots st) peer = true →
     mapM Wire.message (App.handleToggleSpot fits id t st).2
       = Some (App.handleToggleSpot fits id t st).2 ∧
     Relay.spots (relay_after srv ws now (App.handleToggleSpot fits id t st).2)
       = App.spots (App.handleToggleSpot fits id t st).1 ∧
     App.spots
       <$> peer_mounted_after fits env srv ws c now
             (App.handleToggleSpot fits id t st).2 peer
       = Some (App.spots (App.handleToggleSpot fits id t st).1)) ∧
  (∀ id location,
     (is_Some location → id ≠ "__proto__") →
     mapM Wire.message (App.handleUpdateLocation id location st).2
       = Some (App.handleUpdateLocation id location st).2 →
     App.spotLocations (App.handleUpdateLocation id location st).1 !! "lastUpdated"
       = None →
     Relay.spotLocations
       (relay_after srv ws now (App.handleUpdateLocation id location st).2)
       = App.spotLocations (App.handleUpdateLocation id location st).1 ∧
     App.spotLocations
       <$> peer_mounted_after fits env srv ws c now
             (App.handleUpdateLocation id location st).2 peer
       = Some (App.spotLocations (App.handleUpdateLocation id location st).1)) ∧
  (∀ zone,
     mapM Wire.message (App.handleAddZone zone st).2 = Some (App.handleAddZone zone st).2 →
     Relay.zones (relay_after srv ws now (App.handleAddZone zone st).2)
       = App.zones (App.handleAddZone zone st).1 ∧
     App.zones
       <$> peer_mounted_after fits env srv ws c now (App.handleAddZone zone st).2 peer
       = Some (App.zones (App.handleAddZone zone st).1)) ∧
  (∀ id updates,
     mapM Wire.message (App.handleUpdateZone id updates st).2
       = Some (App.handleUpdateZone id updates st).2 →
     Relay.zones (relay_after srv ws now (App.handleUpdateZone id updates st).2)
       = App.zones (App.handleUpdateZone id updates st).1 ∧
     App.zones
       <$> peer_mounted_after fits env srv ws c now
             (App.handleUpdateZone id updates st).2 peer
       = Some (App.zones (App.handleUpdateZone id updates st).1)) ∧
  (∀ id,
     mapM Wire.message (App.handleDeleteZone id st).2
       = Some (App.handleDeleteZone id st).2 →
     Relay.zones (relay_after srv ws now (App.handleDeleteZone id st).2)
       = App.zones (App.handleDeleteZone id st).1 ∧
     App.zones
       <$> peer_mounted_after fits env srv ws c now (App.handleDeleteZone id st).2 peer
       = Some (App.zones (App.handleDeleteZone id st).1)).
Proof.
  intros Hguest Hopen Hnd Hc Hne.
  destruct (online_handlers_out fits st Hguest Hopen) as (Ht & Hl & Ha & Hu & Hd).
  split; [|split; [|split; [|split]]].
  - intros id t _ Hpeer. rewrite Ht. rewrite handleToggleSpot_spots by done.
    split; [apply wire_spots|]. by apply spots_through_relay.
  - intros id location _ _ Hkey. rewrite Hl. by apply spotLocations_through_relay.
  - intros zone _. rewrite Ha. by apply zones_through_relay.
  - intros id updates _. rewrite Hu. by apply zones_through_relay.
  - intros id _. rewrite Hd. by apply zones_through_relay.
Qed.

Lemma local_change_reaches_relay_and_peers_witness :
  App.spots
    <$> peer_mounted_after Sample.roomy (App.first_render Sample.guest_online)
          {| Relay.appState := Sample.seeded;
             Relay.clients := [{| Relay.sock := 1; Relay.readyState := OPEN |};
                               {| Relay.sock := 2; Relay.readyState := OPEN |}] |}
          1 2 2001
          (App.handleToggleSpot Sample.roomy "C-01" 2000 Sample.admin_online).2
          Sample.guest_online
    = Some [Sample.C01_occupied; Sample.M01] ∧
  App.spotLocations
    <$> peer_mounted_after Sample.roomy (App.first_render Sample.guest_online)
          {| Relay.appState := Sample.seeded;
             Relay.clients := [{| Relay.sock := 1; Relay.readyState := OPEN |};
                               {| Relay.sock := 2; Relay.readyState := OPEN |}] |}
          1 2 2001
          (App.handleUpdateLocation "C-01" (Some Sample.centre) Sample.admin_online).2
          Sample.guest_online
    = Some {[ "C-01" := Sample.centre ]}.
Proof.
  destruct (local_change_reaches_relay_and_peers Sample.roomy
              (App.first_render Sample.guest_online)
              {| Relay.appState := Sample.seeded;
                 Relay.clients := [{| Relay.sock := 1; Relay.readyState := OPEN |};
                                   {| Relay.sock := 2; Relay.readyState := OPEN |}] |}
              1 2 2001 Sample.admin_online Sample.guest_online)
    as (Htoggle & Hplace & _).
  - reflexivity.
  - reflexivity.
  - apply (bool_decide_unpack _). vm_compute. exact I.
  - apply list_elem_of_further, list_elem_of_here.
  - lia.
  - split.
    + exact (proj2 (proj2 (Htoggle "C-01" 2000 eq_refl eq_refl))).
    + refine (proj2 (Hplace "C-01" (Some Sample.centre) _ _ _)).
      * discriminate.
      * vm_compute. reflexivity.
      * reflexivity.
Defined.

(** An uploaded image, once the browser has stored it, is the sender's
    [mapImage] and reaches the relay and every other open peer when its
    data URL is a non-empty string. When the read failed
    ([reader.result] is [null]) the sender's [mapImage] becomes [null],
    the string "null" is stored, and the UPDATE that is sent changes
    neither the relay's image nor the peer's. *)
Theorem uploaded_image_reaches_peers
    (fits : gmap string App.Stored → bool) (env : App.Captured)
    (srv : Relay.Server) (ws c : nat) (now : Z) (st peer : App.State)
    (result : option string) :
  App.isGuest st = false →
  App.socketRef st = Some OPEN →
  fits (<[App.STORAGE_KEYS.IMAGE := App.text (default "null" result)]>
          (App.localStorage st)) = true →
  NoDup (Relay.sock <$> Relay.clients srv) →
  {| Relay.sock := c; Relay.readyState := OPEN |} ∈ Relay.clients srv →
  c ≠ ws →
  App.mapImage (App.handleImageUpload fits {| App.reader_result := result |} st).1
    = result ∧
  App.localStorage (App.handleImageUpload fits {| App.reader_result := result |} st).1
    !! App.STORAGE_KEYS.IMAGE = Some (App.text (default "null" result)) ∧
  image_replaced (Some result) (Relay.mapImage (Relay.appState srv))
    (Relay.mapImage
       (relay_after srv ws now
          (App.handleImageUpload fits {| App.reader_result := result |} st).2)) ∧
  image_replaced (Some result) (App.mapImage peer)
    (App.mapImage
       (peer_after fits env srv ws c now
          (App.handleImageUpload fits {| App.reader_result := result |} st).2 peer)).
Proof.
  intros Hguest Hopen Hfits Hnd Hc Hne.
  assert (Hres : App.handleImageUpload fits {| App.reader_result := result |} st
            = (App.setMapImage result
                 (App.with_storage
                    (<[App.STORAGE_KEYS.IMAGE := App.text (default "null" result)]>
                       (App.localStorage st)) st),
               [update_msg (only_mapImage result)])).
  { unfold App.handleImageUpload, App.onloadend, App.setItem, App.broadcastUpdate.
    rewrite Hguest, Hopen. simpl. by rewrite Hfits. }
  rewrite Hres. cbn [fst snd].
  split; [done|]. split; [apply lookup_insert_eq|].
  rewrite one_update_reaches_peer by done.
  destruct (one_update_through_relay srv ws c now (only_mapImage result) Hnd Hc Hne)
    as [-> _].
  destruct (onmessage_update_fields fits env (only_mapImage result) peer)
    as (_ & _ & _ & ->).
  split; apply assign_if_image_replaced.
Qed.

Lemma uploaded_image_reaches_peers_witness :
  App.mapImage
    (App.handleImageUpload Sample.roomy {| App.reader_result := None |}
       Sample.admin_online).1 = None ∧
  image_replaced (Some None) (App.mapImage Sample.guest_online)
    (App.mapImage
       (peer_after Sample.roomy (App.first_render Sample.guest_online)
          {| Relay.appState := Sample.mapped;
             Relay.clients := [{| Relay.sock := 1; Relay.readyState := OPEN |};
                               {| Relay.sock := 2; Relay.readyState := OPEN |}] |}
          1 2 2001
          (App.handleImageUpload Sample.roomy {| App.reader_result := None |}
             Sample.admin_online).2
          Sample.guest_online)).
Proof.
  destruct (uploaded_image_reaches_peers Sample.roomy
              (App.first_render Sample.guest_online)
              {| Relay.appState := Sample.mapped;
                 Relay.clients := [{| Relay.sock := 1; Relay.readyState := OPEN |};
                                   {| Relay.sock := 2; Relay.readyState := OPEN |}] |}
              1 2 2001 Sample.admin_online Sample.guest_online None)
    as (H1 & _ & _ & H4).
  - reflexivity.
  - reflexivity.
  - reflexivity.
  - apply (bool_decide_unpack _). vm_compute. exact I.
  - apply list_elem_of_further, list_elem_of_here.
  - lia.
  - exact (conj H1 H4).
Defined.

(** ** The simulation *)

Lemma restatus_ids (statusMap : gmap string string) (clock : nat → Date)
    (l : list ParkingSpot) :
  spot_id <$> imap (GeminiService.restatus statusMap clock) l = spot_id <$> l ∧
  spot_type <$> imap (GeminiService.restatus statusMap clock) l = spot_type <$> l.
Proof.
  split; rewrite fmap_imap; by rewrite <- (imap_const _ l).
Qed.

(** A simulation never adds, removes, reorders or retypes a spot: the
    spots of the state once it has run have the ids and vehicle types of
    the spots that were displayed when it was started, whatever the
    state had become when the call returned (an update received in
    between is overwritten), provided the browser accepts the write of
    the spots it sets. A spot is set occupied exactly when the reply
    maps its id to the string OCCUPIED; without a usable reply the spots
    of the start are set again, which changes nothing when the state
    still holds that array. With an open socket those spots are sent as
    one UPDATE. The handler tests no role. Without an API key nothing
    happens. *)
Theorem simulation_keeps_the_spots
    (fits : gmap string App.Stored → bool) (apiKey : string)
    (reply : GeminiService.Reply) (clock : nat → Date)
    (spots_at_click : list ParkingSpot) (still_current : bool)
    (st st' : App.State) (out : list WSMessage) :
  (still_current = true → App.spots st = spots_at_click) →
  (App.same_array reply still_current = false →
   App.spots_write_accepted fits (App.spots st') st = true) →
  App.handleSimulation fits apiKey reply clock spots_at_click still_current st
    = Some (st', out) →
  apiKey ≠ "" ∧
  spot_id <$> App.spots st' = spot_id <$> spots_at_click ∧
  spot_type <$> App.spots st' = spot_type <$> spots_at_click ∧
  (∀ statusMap s, reply = GeminiService.parsed statusMap → s ∈ App.spots st' →
     (spot_status s = OCCUPIED ↔ statusMap !! spot_id s = Some "OCCUPIED")) ∧
  ((∀ statusMap, reply ≠ GeminiService.parsed statusMap) →
   App.spots st' = spots_at_click) ∧
  (App.same_array reply still_current = true → st' = st) ∧
  (App.same_array reply still_current = false → spots_recorded st') ∧
  (App.socketRef st = Some OPEN → out = [update_msg (only_spots (App.spots st'))]) ∧
  (App.socketRef st ≠ Some OPEN → out = []).
Proof.
  intros Hflag Hacc.
  unfold App.handleSimulation, GeminiService.simulateTrafficScenario.
  destruct apiKey as [|a k]; [done|]. simpl.
  set (newSpots := match reply with
                   | GeminiService.parsed statusMap =>
                       imap (GeminiService.restatus statusMap clock) spots_at_click
                   | _ => spots_at_click
                   end).
  assert (Hnew : Some newSpots
            = match reply with
              | GeminiService.parsed statusMap =>
                  Some (imap (GeminiService.restatus statusMap clock) spots_at_click)
              | _ => Some spots_at_click
              end) by (by destruct reply).
  rewrite <- Hnew. intros [= Hst' <-].
  assert (Hspots : App.spots st' = newSpots).
  { destruct (App.same_array reply still_current) eqn:Hsame.
    - subst st'. unfold App.same_array in Hsame. subst newSpots.
      destruct reply; try done; by apply Hflag.
    - subst st'. by destruct (setSpots_fields fits newSpots st) as (_ & _ & _ & -> & _). }
  split; [done|].
  split; [|split; [|split; [|split; [|split; [|split; [|split]]]]]].
  - rewrite Hspots. subst newSpots. destruct reply; try done. apply restatus_ids.
  - rewrite Hspots. subst newSpots. destruct reply; try done. apply restatus_ids.
  - intros statusMap s Hrep Hs. rewrite Hspots in Hs. subst newSpots. rewrite Hrep in Hs.
    apply list_elem_of_lookup in Hs as [i Hi].
    rewrite list_lookup_imap in Hi. destruct (spots_at_click !! i) as [s0|]; [|done].
    injection Hi as <-. simpl. split; intros Hocc.
    + by case_bool_decide.
    + by rewrite bool_decide_eq_true_2.
  - intros Hrep. rewrite Hspots. subst newSpots. destruct reply; try done.
    by destruct (Hrep statusMap).
  - intros Hsame. by rewrite Hsame in Hst'.
  - intros Hsame. specialize (Hacc Hsame). rewrite Hspots in Hacc.
    rewrite Hsame in Hst'. subst st'. by apply setSpots_accepted.
  - intros Hopen. rewrite Hspots. unfold App.broadcastUpdate. by rewrite Hopen.
  - intros Hsock. unfold App.broadcastUpdate. by destruct (App.socketRef st) as [[]|].
Qed.

Lemma simulation_keeps_the_spots_witness :
  spot_id <$> [Sample.C01_occupied; Sample.M01] = spot_id <$> [Sample.C01; Sample.M01].
Proof.
  apply (simulation_keeps_the_spots Sample.roomy "key"
           (GeminiService.parsed {[ "C-01" := "OCCUPIED"; "M-01" := "free" ]})
           (λ _, 2000) [Sample.C01; Sample.M01] false Sample.admin_online
           (App.setSpots Sample.roomy [Sample.C01_occupied;
              {| spot_id := "M-01"; spot_type := MOTORCYCLE; spot_status := FREE;
                 spot_lastUpdated := Some 2000 |}] Sample.admin_online)
           [update_msg (only_spots [Sample.C01_occupied;
              {| spot_id := "M-01"; spot_type := MOTORCYCLE; spot_status := FREE;
                 spot_lastUpdated := Some 2000 |}])]).
  - discriminate.
  - reflexivity.
  - reflexivity.
Defined.

(** ** Loading a layout snapshot *)

(** Loading a snapshot replaces the local locations and zones by those of
    the snapshot, whatever the role and even when a write is refused, and
    leaves the spots and the image. It reaches the switch to the map view
    exactly when the browser accepts both writes; then both are stored
    under their keys and, on an open socket, one UPDATE carries the two
    fields. Otherwise nothing is sent. *)
Theorem load_snapshot_outcomes
    (fits : gmap string App.Stored → bool)
    (locations : gmap string SpotLocation) (loadedZones : list MapZone) (st : App.State) :
  App.spotLocations (App.handleLoadLayoutSnapshot fits locations loadedZones st).1.1
    = locations ∧
  App.zones (App.handleLoadLayoutSnapshot fits locations loadedZones st).1.1
    = loadedZones ∧
  App.spots (App.handleLoadLayoutSnapshot fits locations loadedZones st).1.1
    = App.spots st ∧
  App.mapImage (App.handleLoadLayoutSnapshot fits locations loadedZones st).1.1
    = App.mapImage st ∧
  ((App.handleLoadLayoutSnapshot fits locations loadedZones st).2 = true ↔
   fits (<[App.STORAGE_KEYS.LOCATIONS := App.json_locations locations]>
           (App.localStorage st)) = true ∧
   fits (<[App.STORAGE_KEYS.ZONES := App.json_zones loadedZones]>
           (<[App.STORAGE_KEYS.LOCATIONS := App.json_locations locations]>
              (App.localStorage st))) = true) ∧
  ((App.handleLoadLayoutSnapshot fits locations loadedZones st).2 = true →
   App.localStorage (App.handleLoadLayoutSnapshot fits locations loadedZones st).1.1
     !! App.STORAGE_KEYS.LOCATIONS = Some (App.json_locations locations) ∧
   App.localStorage (App.handleLoadLayoutSnapshot fits locations loadedZones st).1.1
     !! App.STORAGE_KEYS.ZONES = Some (App.json_zones loadedZones) ∧
   (App.socketRef st = Some OPEN →
    (App.handleLoadLayoutSnapshot fits locations loadedZones st).1.2
      = [update_msg {| p_spots := None; p_spotLocations := Some locations;
                       p_zones := Some loadedZones; p_mapImage := None |}])) ∧
  ((App.handleLoadLayoutSnapshot fits locations loadedZones st).2 = false →
   (App.handleLoadLayoutSnapshot fits locations loadedZones st).1.2 = []).
Proof.
  unfold App.handleLoadLayoutSnapshot, App.setItem, App.broadcastUpdate.
  destruct (fits (<[App.STORAGE_KEYS.LOCATIONS:=_]> _)) eqn:E1; simpl.
  2:{ repeat split; try done. by intros [? _]. }
  destruct (fits (<[App.STORAGE_KEYS.ZONES:=_]> _)) eqn:E2; simpl.
  - repeat split; try done.
    + rewrite lookup_insert_ne by done. apply lookup_insert_eq.
    + apply lookup_insert_eq.
    + by intros ->.
  - repeat split; try done. by intros [_ ?].
Qed.

Lemma load_snapshot_outcomes_witness :
  (App.handleLoadLayoutSnapshot Sample.roomy {[ "C-01" := Sample.centre ]}
     [Sample.entrance] Sample.guest_online).1.2
  = [update_msg {| p_spots := None;
                   p_spotLocations := Some {[ "C-01" := Sample.centre ]};
                   p_zones := Some [Sample.entrance]; p_mapImage := None |}] ∧
  (App.handleLoadLayoutSnapshot Sample.full {[ "C-01" := Sample.centre ]}
     [Sample.entrance] Sample.guest_online).1.2 = [].
Proof.
  split.
  - apply (load_snapshot_outcomes Sample.roomy {[ "C-01" := Sample.centre ]}
             [Sample.entrance] Sample.guest_online); reflexivity.
  - apply (load_snapshot_outcomes Sample.full {[ "C-01" := Sample.centre ]}
             [Sample.entrance] Sample.guest_online). reflexivity.
Defined.

(** ** The storage event *)

(** While the client is connected, a storage event changes nothing. While
    it is not, an event for another key than the four of the application,
    or whose new value is [null] (the key was removed), changes nothing
    either. *)
Theorem storage_event_ignored
    (fits : gmap string App.Stored → bool) (e : App.StorageEvent) (st : App.State) :
  (App.isConnected st = true → App.handleStorageChange fits e st = Some st) ∧
  (App.e_newValue e = None → App.handleStorageChange fits e st = Some st) ∧
  (App.e_key e ≠ Some App.STORAGE_KEYS.SPOTS →
   App.e_key e ≠ Some App.STORAGE_KEYS.LOCATIONS →
   App.e_key e ≠ Some App.STORAGE_KEYS.ZONES →
   App.e_key e ≠ Some App.STORAGE_KEYS.IMAGE →
   App.handleStorageChange fits e st = Some st).
Proof.
  unfold App.handleStorageChange, App.on_key. repeat split.
  - by intros ->.
  - intros ->. destruct (App.isConnected st); [done|]. simpl.
    by rewrite !andb_false_r.
  - intros H1 H2 H3 H4. destruct (App.isConnected st); [done|].
    by rewrite !bool_decide_eq_false_2 by done.
Qed.

Lemma storage_event_ignored_witness :
  App.handleStorageChange Sample.roomy
    {| App.e_key := Some App.STORAGE_KEYS.SPOTS;
       App.e_newValue := Some (App.json_spots [Sample.C01_occupied]) |}
    Sample.admin_online
  = Some Sample.admin_online ∧
  App.handleStorageChange Sample.roomy
    {| App.e_key := Some App.STORAGE_KEYS.SPOTS;
       App.e_newValue := Some (App.json_spots [Sample.C01_occupied]) |}
    Sample.admin_offline
  ≠ Some Sample.admin_offline.
Proof.
  split.
  - exact (proj1 (storage_event_ignored Sample.roomy _ Sample.admin_online) eq_refl).
  - vm_compute. discriminate.
Defined.

(** Two tabs of one browser, hence one [localStorage]. A tab in which
    somebody who is not a guest toggles a spot stores the new spots; the
    storage event of that write, handled by another tab that is not
    connected, gives that tab the spots of the first one, and leaves its
    other fields and the store as they are. *)
Theorem toggle_reaches_offline_tab
    (fits : gmap string App.Stored → bool) (id : string) (now : Date)
    (st other : App.State) :
  App.isGuest st = false →
  fits (<[App.STORAGE_KEYS.SPOTS := App.json_spots (App.toggle id now <$> App.spots st)]>
          (App.localStorage st)) = true →
  App.isConnected other = false →
  ∃ other',
    App.handleStorageChange fits
      {| App.e_key := Some App.STORAGE_KEYS.SPOTS;
         App.e_newValue :=
           App.localStorage (App.handleToggleSpot fits id now st).1
             !! App.STORAGE_KEYS.SPOTS |}
      (App.with_storage (App.localStorage (App.handleToggleSpot fits id now st).1) other)
      = Some other' ∧
    App.spots other' = App.spots (App.handleToggleSpot fits id now st).1 ∧
    App.localStorage other' = App.localStorage (App.handleToggleSpot fits id now st).1 ∧
    App.spotLocations other' = App.spotLocations other ∧
    App.zones other' = App.zones other ∧
    App.mapImage other' = App.mapImage other.
Proof.
  intros Hguest Hfits Hoff.
  assert (Hres : (App.handleToggleSpot fits id now st).1
            = App.with_storage
                (<[App.STORAGE_KEYS.SPOTS :=
                     App.json_spots (App.toggle id now <$> App.spots st)]>
                   (App.localStorage st))
                {| App.userRole := App.userRole st; App.isConnected := App.isConnected st;
                   App.socketRef := App.socketRef st;
                   App.spots := App.toggle id now <$> App.spots st;
                   App.spotLocations := App.spotLocations st; App.zones := App.zones st;
                   App.mapImage := App.mapImage st;
                   App.localStorage := App.localStorage st |}).
  { unfold App.handleToggleSpot, App.setSpots, App.persist_spots, App.setItem.
    rewrite Hguest. simpl. by rewrite Hfits. }
  rewrite Hres. simpl. rewrite lookup_insert_eq.
  unfold App.handleStorageChange, App.on_key. simpl. rewrite Hoff. simpl.
  unfold App.setSpots, App.persist_spots, App.setItem. simpl.
  rewrite insert_insert_eq, Hfits. simpl.
  eexists. split; [reflexivity|]. done.
Qed.

Lemma toggle_reaches_offline_tab_witness :
  ∃ other',
    App.handleStorageChange Sample.roomy
      {| App.e_key := Some App.STORAGE_KEYS.SPOTS;
         App.e_newValue :=
           App.localStorage
             (App.handleToggleSpot Sample.roomy "C-01" 2000 Sample.admin_offline).1
             !! App.STORAGE_KEYS.SPOTS |}
      (App.with_storage
         (App.localStorage
            (App.handleToggleSpot Sample.roomy "C-01" 2000 Sample.admin_offline).1)
         Sample.fresh)
      = Some other' ∧
    App.spots other' = [Sample.C01_occupied; Sample.M01].
Proof.
  destruct (toggle_reaches_offline_tab Sample.roomy "C-01" 2000
              Sample.admin_offline Sample.fresh eq_refl eq_refl eq_refl)
    as (other' & H1 & H2 & _).
  exists other'. exact (conj H1 H2).
Defined.

(** ** The first render and the next session *)

(** [generateSpots], whatever the clock: 93 spots, 62 cars then 31
    motorcycles, all free, with pairwise distinct ids. *)
Theorem generated_spots (clock : nat → Date) :
  length (App.generateSpots clock) = 93%nat ∧
  NoDup (spot_id <$> App.generateSpots clock) ∧
  spot_type <$> App.generateSpots clock = replicate 62 CAR ++ replicate 31 MOTORCYCLE ∧
  spot_status <$> App.generateSpots clock = replicate 93 FREE ∧
  spot_id <$> take 2 (App.generateSpots clock) = ["C-01"; "C-02"] ∧
  spot_id <$> drop 91 (App.generateSpots clock) = ["M-30"; "M-31"].
Proof.
  repeat split; try (vm_compute; reflexivity).
  apply (bool_decide_unpack _). vm_compute. exact I.
Qed.

(** Where [localStorage] holds nothing under the four keys, or the empty
    string under the keys of the spots, the locations and the zones, the
    first render shows the generated spots, no location, no zone and no
    image, with nobody logged in and no connection. *)
Theorem first_render_missing_keys (clock : nat → Date) (ls : gmap string App.Stored) :
  ls !! App.STORAGE_KEYS.SPOTS = None ∨
    ls !! App.STORAGE_KEYS.SPOTS = Some (App.text "") →
  ls !! App.STORAGE_KEYS.LOCATIONS = None ∨
    ls !! App.STORAGE_KEYS.LOCATIONS = Some (App.text "") →
  ls !! App.STORAGE_KEYS.ZONES = None ∨
    ls !! App.STORAGE_KEYS.ZONES = Some (App.text "") →
  ls !! App.STORAGE_KEYS.IMAGE = None →
  App.initialState clock ls
  = Some {| App.userRole := None; App.isConnected := false; App.socketRef := None;
            App.spots := App.generateSpots clock; App.spotLocations := ∅;
            App.zones := []; App.mapImage := None; App.localStorage := ls |}.
Proof.
  intros Hs Hl Hz Hi. unfold App.initialState, App.loadFromStorage. rewrite Hi.
  by destruct Hs as [-> | ->], Hl as [-> | ->], Hz as [-> | ->].
Qed.

Lemma first_render_missing_keys_witness :
  App.spots <$> App.initialState (λ _, 0) {[ App.STORAGE_KEYS.ZONES := App.text "" ]}
  = Some (App.generateSpots (λ _, 0)).
Proof.
  rewrite (first_render_missing_keys (λ _, 0)
             {[ App.STORAGE_KEYS.ZONES := App.text "" ]});
    [reflexivity | by left | by left | by right | reflexivity].
Defined.

(** The next session starts from what this one stored. If the store of a
    state can be read by [initialState], then after a toggle whose write
    the browser accepts it can still be read, and the state read has the
    spots of the state after the toggle; its locations, zones and image
    are those that were read before. *)
Theorem next_session_starts_with_toggled_spots
    (fits : gmap string App.Stored → bool) (clock clock' : nat → Date)
    (id : string) (now : Date) (st st0 : App.State) :
  App.isGuest st = false →
  fits (<[App.STORAGE_KEYS.SPOTS := App.json_spots (App.toggle id now <$> App.spots st)]>
          (App.localStorage st)) = true →
  App.initialState clock (App.localStorage st) = Some st0 →
  ∃ st1,
    App.initialState clock' (App.localStorage (App.handleToggleSpot fits id now st).1)
      = Some st1 ∧
    App.spots st1 = App.spots (App.handleToggleSpot fits id now st).1 ∧
    App.spotLocations st1 = App.spotLocations st0 ∧
    App.zones st1 = App.zones st0 ∧
    App.mapImage st1 = App.mapImage st0.
Proof.
  intros Hguest Hfits Hinit.
  assert (Hstore : App.localStorage (App.handleToggleSpot fits id now st).1
            = <[App.STORAGE_KEYS.SPOTS :=
                  App.json_spots (App.toggle id now <$> App.spots st)]>
                (App.localStorage st)).
  { unfold App.handleToggleSpot, App.setSpots, App.persist_spots, App.setItem.
    rewrite Hguest. simpl. by rewrite Hfits. }
  rewrite Hstore, handleToggleSpot_spots by done.
  unfold App.initialState, App.loadFromStorage in *.
  rewrite lookup_insert_eq. rewrite !lookup_insert_ne by done. simpl.
  destruct (match App.localStorage st !! App.STORAGE_KEYS.SPOTS with
            | Some item => if truthy item then App.as_spots item
                           else Some (App.generateSpots clock)
            | None => Some (App.generateSpots clock)
            end) as [s0|]; [|done]. simpl in Hinit.
  destruct (match App.localStorage st !! App.STORAGE_KEYS.IMAGE with
            | Some item => Some <$> App.as_text item
            | None => Some None
            end) as [i0|]; [|done]. simpl in *.
  destruct (match App.localStorage st !! App.STORAGE_KEYS.LOCATIONS with
            | Some item => if truthy item then App.as_locations item else Some ∅
            | None => Some ∅
            end) as [l0|]; [|done]. simpl in *.
  destruct (match App.localStorage st !! App.STORAGE_KEYS.ZONES with
            | Some item => if truthy item then App.as_zones item else Some []
            | None => Some []
            end) as [z0|]; [|done]. simpl in *.
  injection Hinit as <-. eexists. split; [reflexivity|]. done.
Qed.

Lemma next_session_starts_with_toggled_spots_witness :
  ∃ st1,
    App.initialState (λ _, 9000)
      (App.localStorage (App.handleToggleSpot Sample.roomy "C-01" 2000
                           Sample.admin_offline).1)
      = Some st1 ∧
    App.spots st1 = [Sample.C01_occupied; Sample.M01].
Proof.
  destruct (next_session_starts_with_toggled_spots Sample.roomy (λ _, 0) (λ _, 9000)
              "C-01" 2000 Sample.admin_offline
              {| App.userRole := None; App.isConnected := false; App.socketRef := None;
                 App.spots := App.generateSpots (λ _, 0); App.spotLocations := ∅;
                 App.zones := []; App.mapImage := None; App.localStorage := ∅ |}
              eq_refl eq_refl eq_refl)
    as (st1 & H1 & H2 & _).
  exists st1. exact (conj H1 H2).
Defined.
